(** * RelayPlane proxy: complexity classifier and SSE streaming relay

    A shallow embedding of [classifyComplexity] (routing/complexity-classifier)
    and of the streaming module ([SSEWriter], [streamProviderResponse],
    [aggregateStreamingResponse]), followed by the properties established
    about them.

    Conventions of the embedding.
    - A JavaScript string is a [string]: a sequence of code units, here the
      code units U+0000..U+00FF.  [length] is the number of code units.
    - A value that came out of [JSON.parse] is a [json]; a missing property
      ([undefined]) is [None].
    - Code that can throw returns an [option].
    - Stateful objects (the HTTP response, the [SSEWriter]) are records that
      are passed along explicitly. *)

From Stdlib Require Import String Ascii List Bool Arith ZArith Lia.
From Stdlib Require Import Floats.PrimFloat.
Import ListNotations.

Set Warnings "-register-all".

Open Scope string_scope.
Open Scope list_scope.
Open Scope nat_scope.

(* ================================================================== *)
(** * Part I: the program *)
(* ================================================================== *)

(** ** The string operations of the host language that the code uses *)

Module JsString.

Definition LF : ascii := "010"%char.
Definition CR : ascii := "013"%char.

(** A one-character string holding a line feed, the separator of
    [split('\n')] and [join('\n')]. *)
Definition nl : string := String LF "".

(** [s.startsWith(p)] *)
Fixpoint startsWith (p s : string) : bool :=
  match p, s with
  | "", _ => true
  | String a p', String b s' => Ascii.eqb a b && startsWith p' s'
  | String _ _, "" => false
  end.

(** [s.slice(n)] for [0 <= n] *)
Fixpoint slice (n : nat) (s : string) : string :=
  match n, s with
  | O, _ => s
  | S n', String _ s' => slice n' s'
  | S _, "" => ""
  end.

(** [s.split(sep)] for a separator of one character: never empty. *)
Fixpoint split (sep : ascii) (s : string) : list string :=
  match s with
  | "" => [""]
  | String c s' =>
      if Ascii.eqb c sep then "" :: split sep s'
      else match split sep s' with
           | h :: t => String c h :: t
           | [] => [String c ""]
           end
  end.

(** [parts.join(sep)] *)
Definition join (sep : string) (parts : list string) : string :=
  String.concat sep parts.

(** [lines.pop()] seen as a pure function: the last element, and the array
    without it. *)
Definition pop_value (l : list string) : option string :=
  match l with
  | [] => None
  | _ => Some (last l "")
  end.

Definition pop_rest (l : list string) : list string := removelast l.

(** White space in the sense of [String.prototype.trim], among the code
    units U+0000..U+00FF: TAB, LF, VT, FF, CR, SP and NBSP. *)
Definition isWhiteSpace (c : ascii) : bool :=
  let n := nat_of_ascii c in
  ((9 <=? n) && (n <=? 13)) || (n =? 32) || (n =? 160).

Fixpoint trimStart (s : string) : string :=
  match s with
  | "" => ""
  | String c s' => if isWhiteSpace c then trimStart s' else s
  end.

Fixpoint trimEnd (s : string) : string :=
  match s with
  | "" => ""
  | String c s' =>
      match trimEnd s' with
      | "" => if isWhiteSpace c then "" else String c ""
      | r => String c r
      end
  end.

(** [s.trim()] *)
Definition trim (s : string) : string := trimEnd (trimStart s).

(** A string of white space only. *)
Fixpoint blank (s : string) : bool :=
  match s with
  | "" => true
  | String c s' => isWhiteSpace c && blank s'
  end.

(** [toLowerCase] on one code unit of U+0000..U+00FF: A-Z and the
    capital letters U+00C0..U+00DE (all but the multiplication sign U+00D7)
    move up by 32. *)
Definition lowerChar (c : ascii) : ascii :=
  let n := nat_of_ascii c in
  if ((65 <=? n) && (n <=? 90))
     || ((192 <=? n) && (n <=? 222) && negb (n =? 215))
  then ascii_of_nat (n + 32)
  else c.

(** [s.toLowerCase()] *)
Fixpoint toLowerCase (s : string) : string :=
  match s with
  | "" => ""
  | String c s' => String (lowerChar c) (toLowerCase s')
  end.

(** A string is truthy when it is not empty. *)
Definition truthy (s : string) : bool :=
  match s with
  | "" => false
  | _ => true
  end.

End JsString.

(** ** JSON values *)

Module Json.

(** What [JSON.parse] produces.  The fields of an object are kept in the
    order they were written; when a key is written twice the later one wins,
    as in [JSON.parse] and in an object literal. *)
Inductive json : Type :=
| JNull
| JBool (b : bool)
| JNum (x : float)
| JStr (s : string)
| JArr (items : list json)
| JObj (fields : list (string * json)).

(** [o[k]] on the fields of an object: [None] is [undefined]. *)
Fixpoint field (k : string) (fields : list (string * json)) : option json :=
  match fields with
  | [] => None
  | (k', v) :: rest =>
      match field k rest with
      | Some later => Some later
      | None => if String.eqb k' k then Some v else None
      end
  end.

(** [v.k] for a [v] that is neither [null] nor [undefined], and a key [k]
    that is none of the built-in properties of arrays and strings (the code
    reads [model], [choices], [usage], [delta], [content], [finish_reason]
    and the token counts only). *)
Definition prop (v : json) (k : string) : option json :=
  match v with
  | JObj fields => field k fields
  | _ => None
  end.

(** [typeof v === 'object' && v !== null] *)
Definition isObject (v : json) : bool :=
  match v with
  | JObj _ | JArr _ => true
  | _ => false
  end.

(** [v && typeof v === 'string']: a string that is not empty. *)
Definition nonEmptyString (v : option json) : option string :=
  match v with
  | Some (JStr s) => if JsString.truthy s then Some s else None
  | _ => None
  end.

(** [v && typeof v === 'object'] *)
Definition truthyObject (v : option json) : option json :=
  match v with
  | Some o => if isObject o then Some o else None
  | None => None
  end.

End Json.

(** ** Regular expressions *)

Module Regex.
Import JsString.

(** The part of the regular-expression language that the patterns of the
    classifier are written in: literal text, [\d], [.*], alternation and
    sequence. *)
Inductive regex : Type :=
| Lit (s : string)
| Digit
| DotStar
| Alt (a b : regex)
| Cat (a b : regex).

(** [\d] *)
Definition isDigit (c : ascii) : bool :=
  let n := nat_of_ascii c in (48 <=? n) && (n <=? 57).

(** The line terminators that [.] refuses.  U+2028 and U+2029 lie outside
    the code units of [string]. *)
Definition isLineTerminator (c : ascii) : bool :=
  Ascii.eqb c LF || Ascii.eqb c CR.

(** What is left of [s] behind the literal [p], when [s] starts with it. *)
Fixpoint after_literal (p s : string) : option string :=
  match p, s with
  | "", _ => Some s
  | String a p', String b s' =>
      if Ascii.eqb a b then after_literal p' s' else None
  | String _ _, "" => None
  end.

(** [.*] followed by the continuation [k]: greedy, giving back one
    character at a time. *)
Fixpoint dotStar (k : string -> bool) (s : string) : bool :=
  match s with
  | "" => k ""
  | String c s' => (negb (isLineTerminator c) && dotStar k s') || k s
  end.

(** A backtracking matcher: [exec r k s] matches [r] at the start of [s] and
    hands what is left to [k]. *)
Fixpoint exec (r : regex) (k : string -> bool) (s : string) : bool :=
  match r with
  | Lit p =>
      match after_literal p s with
      | Some rest => k rest
      | None => false
      end
  | Digit =>
      match s with
      | String c rest => isDigit c && k rest
      | "" => false
      end
  | DotStar => dotStar k s
  | Alt a b => exec a k s || exec b k s
  | Cat a b => exec a (exec b k) s
  end.

(** [r.test(s)] for a pattern without flags: a match starting at any index. *)
Fixpoint test (r : regex) (s : string) : bool :=
  exec r (fun _ => true) s
  || match s with
     | "" => false
     | String _ s' => test r s'
     end.

(** [w1|w2|...] over literal words. *)
Definition oneOf (w : string) (ws : list string) : regex :=
  fold_left (fun r x => Alt r (Lit x)) ws (Lit w).

End Regex.

(** ** The complexity classifier *)

Module Complexity.
Import JsString Json Regex.

Inductive Complexity : Type := simple | moderate | complex.

(** A content block, [{ type?: string; text?: string }]. *)
Record ContentBlock : Type := mkBlock {
  type : option string;
  text : option string
}.

(** [content?: unknown]: a string, an array of blocks, or anything else
    (missing included). *)
Inductive Content : Type :=
| CString (s : string)
| CBlocks (blocks : list ContentBlock)
| COther.

Record Message : Type := mkMessage {
  content : Content;
  role : option string
}.

(** [p.type === t] *)
Definition typeIs (t : string) (p : ContentBlock) : bool :=
  match type p with
  | Some t' => String.eqb t' t
  | None => false
  end.

Definition isToolBlock (p : ContentBlock) : bool :=
  typeIs "tool_result" p || typeIs "tool_use" p.

(** [c.text ?? ""] *)
Definition blockText (c : ContentBlock) : string :=
  match text c with
  | Some t => t
  | None => ""
  end.

Definition extractSingleMessageText (msg : Message) : string :=
  match content msg with
  | CString s => s
  | CBlocks blocks => join " " (map blockText (filter (typeIs "text") blocks))
  | COther => ""
  end.

Definition extractMessageText (messages : list Message) : string :=
  join " " (map extractSingleMessageText messages).

(** The test that makes [findLastUserText] pass over a message: an array of
    blocks without a text block, all of them tool blocks. *)
Definition isOnlyToolResult (msg : Message) : bool :=
  match content msg with
  | CBlocks blocks =>
      negb (existsb (typeIs "text") blocks) && forallb isToolBlock blocks
  | _ => false
  end.

(** The loop of [findLastUserText], on the messages from the last one back
    to the first. *)
Fixpoint scanBackwards (reversed : list Message) : string :=
  match reversed with
  | [] => ""
  | msg :: earlier =>
      if isOnlyToolResult msg then scanBackwards earlier
      else
        let t := extractSingleMessageText msg in
        if 0 <? String.length (trim t) then t else scanBackwards earlier
  end.

Definition findLastUserText (messages : list Message) : string :=
  scanBackwards (rev messages).

(** A message that the loop of [findLastUserText] returns at. *)
Definition stopsAt (m : Message) : bool :=
  negb (isOnlyToolResult m)
  && (0 <? String.length (trim (extractSingleMessageText m))).

(** [Math.ceil(n / 4)] for a length [n]. *)
Definition tokens (n : nat) : Z := ((Z.of_nat n + 3) / 4)%Z.

Definition codePattern : regex := oneOf "function " ["class "; "const "; "import "].
Definition fencePattern : regex := Lit "```".
Definition analyticalPattern : regex :=
  oneOf "analyze" ["compare"; "evaluate"; "assess"; "review"; "audit"].
Definition computationPattern : regex :=
  oneOf "calculate" ["compute"; "solve"; "equation"; "prove"; "derive"].
Definition multiStepPattern : regex :=
  Alt (Alt (Alt (Cat (Lit "first") (Cat DotStar (Lit "then")))
                (Cat (Lit "step ") Digit))
           (Cat (Lit "1)") (Cat DotStar (Lit "2)"))))
      (Cat (Lit "phase ") Digit).
Definition creativePattern : regex :=
  Alt (Alt (Alt (Cat (Lit "write a ")
                     (oneOf "story" ["essay"; "article"; "report"]))
                (Lit "create a"))
           (Lit "design a"))
      (Lit "build a").
Definition engineeringPattern : regex :=
  oneOf "refactor" ["migrate"; "architect"; "implement"; "integrate"].

(** [if (c) score += k], as the amount it adds. *)
Definition adds (c : bool) (k : Z) : Z := if c then k else 0%Z.

(** *** Current-turn signals *)

Definition codeSignal (currentText : string) : Z :=
  adds (test fencePattern currentText || test codePattern currentText) 2.

Definition analyticalSignal (currentText : string) : Z :=
  adds (test analyticalPattern currentText) 1.

Definition computationSignal (currentText : string) : Z :=
  adds (test computationPattern currentText) 2.

Definition multiStepSignal (currentText : string) : Z :=
  adds (test multiStepPattern currentText) 1.

Definition sizeSignal (currentText : string) : Z :=
  let currentTokens := tokens (String.length currentText) in
  (adds (2000 <? currentTokens) 1 + adds (5000 <? currentTokens) 2)%Z.

Definition creativeSignal (currentText : string) : Z :=
  adds (test creativePattern currentText) 1.

Definition engineeringSignal (currentText : string) : Z :=
  adds (test engineeringPattern currentText) 1.

Definition currentTurnScore (currentText : string) : Z :=
  (codeSignal currentText + analyticalSignal currentText
   + computationSignal currentText + multiStepSignal currentText
   + sizeSignal currentText + creativeSignal currentText
   + engineeringSignal currentText)%Z.

(** *** Session-level signals *)

(** [Array.isArray(bodyTools) ? bodyTools.length : 0] *)
Definition toolCount (bodyTools : option json) : nat :=
  match bodyTools with
  | Some (JArr tools) => List.length tools
  | _ => 0
  end.

Definition hasBlock (p : ContentBlock -> bool) (m : Message) : bool :=
  match content m with
  | CBlocks blocks => existsb p blocks
  | _ => false
  end.

Definition hasTools (messages : list Message) (bodyTools : option json) : bool :=
  (0 <? toolCount bodyTools) || existsb (hasBlock isToolBlock) messages.

Definition toolSignal (messages : list Message) (bodyTools : option json) : Z :=
  (adds (hasTools messages bodyTools) 2
   + adds (Nat.leb 5 (toolCount bodyTools)) 1
   + adds (Nat.leb 15 (toolCount bodyTools)) 1)%Z.

(** [messages.slice(-6)] *)
Definition recentMessages (messages : list Message) : list Message :=
  skipn (List.length messages - 6) messages.

(** The messages that hold at least one tool-result block. *)
Definition withToolResult (messages : list Message) : list Message :=
  filter (hasBlock (typeIs "tool_result")) messages.

Definition recentToolResults (messages : list Message) : nat :=
  List.length (withToolResult (recentMessages messages)).

Definition recentToolSignal (messages : list Message) : Z :=
  adds (3 <=? recentToolResults messages) 1.

(** [if (system) { ... }]: an absent or empty prompt adds nothing. *)
Definition systemSignal (system : option string) : Z :=
  match system with
  | Some s =>
      if truthy s then
        let systemTokens := tokens (String.length s) in
        (adds (3000 <? systemTokens) 1 + adds (8000 <? systemTokens) 2)%Z
      else 0%Z
  | None => 0%Z
  end.

(** The value of [score] when the thresholds are applied. *)
Definition score (messages : list Message) (bodyTools : option json)
    (system : option string) : Z :=
  let currentText := toLowerCase (findLastUserText messages) in
  (currentTurnScore currentText
   + toolSignal messages bodyTools
   + recentToolSignal messages
   + systemSignal system)%Z.

Definition tierOf (score : Z) : Complexity :=
  if (5 <=? score)%Z then complex
  else if (3 <=? score)%Z then moderate
  else simple.

Definition classifyComplexity (messages : list Message)
    (bodyTools : option json) (system : option string) : Complexity :=
  tierOf (score messages bodyTools system).

(** The order of the tiers, by ascending cost. *)
Definition rank (c : Complexity) : nat :=
  match c with
  | simple => 0
  | moderate => 1
  | complex => 2
  end.

Definition tier_le (a b : Complexity) : Prop := rank a <= rank b.

(** *** Inputs used in the statements below *)

Definition textMessage (t : string) : Message :=
  {| content := CString t; role := None |}.

Definition toolResultBlock : ContentBlock :=
  {| type := Some "tool_result"; text := None |}.

Definition textBlock (t : string) : ContentBlock :=
  {| type := Some "text"; text := Some t |}.

Definition blocksMessage (blocks : list ContentBlock) : Message :=
  {| content := CBlocks blocks; role := None |}.

(** The number of tool-result blocks in a list of messages: every block is
    counted, also when several sit in one message. *)
Definition toolResultBlocks (messages : list Message) : nat :=
  list_sum
    (map (fun m => match content m with
                   | CBlocks blocks =>
                       List.length (filter (typeIs "tool_result") blocks)
                   | _ => 0
                   end)
         messages).

(** Text added at the end of what [extractSingleMessageText] reads from a
    message: at the end of a string, or at the end of the last text block. *)
Fixpoint appendToLastText (extra : string) (blocks : list ContentBlock)
  : list ContentBlock :=
  match blocks with
  | [] => []
  | b :: rest =>
      if typeIs "text" b && negb (existsb (typeIs "text") rest)
      then {| type := type b;
              text := Some (match text b with Some t => t | None => "" end
                            ++ extra)%string |} :: rest
      else b :: appendToLastText extra rest
  end.

Definition appendText (extra : string) (m : Message) : Message :=
  match content m with
  | CString s => {| content := CString (s ++ extra); role := role m |}
  | CBlocks blocks =>
      {| content := CBlocks (appendToLastText extra blocks); role := role m |}
  | COther => m
  end.

(** One message that holds three tool-result blocks. *)
Definition threeResultsInOneMessage : list Message :=
  [blocksMessage [toolResultBlock; toolResultBlock; toolResultBlock]].

(** The score without the signal of recent tool activity. *)
Definition scoreBesidesRecentTools (messages : list Message)
    (bodyTools : option json) (system : option string) : Z :=
  (currentTurnScore (toLowerCase (findLastUserText messages))
   + toolSignal messages bodyTools
   + systemSignal system)%Z.

(** [c.repeat(n)] for one character. *)
Fixpoint repeated (c : ascii) (n : nat) : string :=
  match n with
  | O => ""
  | S n' => String c (repeated c n')
  end.

(** The message of the code-fence scenario. *)
Definition fenceText : string :=
  ("```" ++ nl ++ "const x = 1;" ++ nl ++ "```")%string.


(** *** Further notions used in the statements below *)

(** What the classifier reads of one message: whether the scan for the
    current turn stops at it, its text up to case, and whether it holds a
    tool block or a tool-result block. *)
Definition sameSignals (m m' : Message) : Prop :=
  stopsAt m = stopsAt m'
  /\ toLowerCase (extractSingleMessageText m)
     = toLowerCase (extractSingleMessageText m')
  /\ hasBlock isToolBlock m = hasBlock isToolBlock m'
  /\ hasBlock (typeIs "tool_result") m = hasBlock (typeIs "tool_result") m'.

(** The sum of all the amounts the signals can add. *)
Definition maxScore : Z := 19.

(** A request on which every signal fires: a long current turn with a code
    fence and a keyword of every kind, behind three tool results; fifteen
    tools; a system prompt of more than 8000 estimated tokens. *)
Definition busiestHistory : list Message :=
  [blocksMessage [toolResultBlock]; blocksMessage [toolResultBlock];
   blocksMessage [toolResultBlock];
   textMessage ("``` Analyze, calculate: step 1, create a plan, refactor "
                ++ repeated "a" (201 * 100))].

Definition fifteenTools : option json := Some (JArr (repeat JNull 15)).

Definition hugePrompt : option string := Some (repeated "s" (4 * (80 * 100 + 1))).

End Complexity.

(** ** The streaming module *)

Module Streaming.
Import JsString Json.

(** *** The HTTP response under an [SSEWriter]

    The response is known by the calls made on it.  [faults] tells, for the
    calls of [write] still to come, which of them throw ([true]); when the
    list is used up, [write] returns normally. *)
Inductive TransportCall : Type :=
| CallWriteHead (status : nat)
| CallWrite (payload : string) (threw : bool)
| CallEnd.

Record ServerResponse : Type := mkResponse {
  calls : list TransportCall;
  faults : list bool
}.

(** [response.write(payload)]: the response afterwards, and whether the call
    returned ([true]) or threw ([false]). *)
Definition response_write (r : ServerResponse) (payload : string)
  : ServerResponse * bool :=
  match faults r with
  | true :: later =>
      ({| calls := calls r ++ [CallWrite payload true]; faults := later |}, false)
  | false :: later =>
      ({| calls := calls r ++ [CallWrite payload false]; faults := later |}, true)
  | [] =>
      ({| calls := calls r ++ [CallWrite payload false]; faults := [] |}, true)
  end.

Definition response_end (r : ServerResponse) : ServerResponse :=
  {| calls := calls r ++ [CallEnd]; faults := faults r |}.

Definition response_writeHead (r : ServerResponse) (status : nat)
  : ServerResponse :=
  {| calls := calls r ++ [CallWriteHead status]; faults := faults r |}.

(** *** SSEWriter *)

Record SSEMessage : Type := mkSSE {
  event : option string;
  data : json;
  id : option string;
  retry : option float
}.

Record SSEWriter : Type := mkWriter {
  response : ServerResponse;
  closed : bool
}.

(** [new SSEWriter(response)] *)
Definition createSSEWriter (r : ServerResponse) : SSEWriter :=
  {| response := response_writeHead r 200; closed := false |}.

(** The handler of the response's ['close'] event: the client went away. *)
Definition onResponseClose (w : SSEWriter) : SSEWriter :=
  {| response := response w; closed := true |}.

Definition isOpen (w : SSEWriter) : bool := negb (closed w).

(** [if (x) lines.push(label + x)] for an optional string [x]. *)
Definition optionalLine (label : string) (x : option string) : list string :=
  match x with
  | Some v => if truthy v then [(label ++ v)%string] else []
  | None => []
  end.

Section Host.

(** [JSON.parse] ([None] when it throws), [JSON.stringify] and the text of a
    number in a template literal belong to the host. *)
Variable JSON_parse : string -> option json.
Variable JSON_stringify : json -> string.
Variable Number_toString : float -> string.

(** The text that [write] hands to the response for a message. *)
Definition wireText (message : SSEMessage) : string :=
  let dataStr :=
    match data message with
    | JStr s => s
    | v => JSON_stringify v
    end in
  join nl
    (optionalLine "event: " (event message)
     ++ optionalLine "id: " (id message)
     ++ match retry message with
        | Some ms => [("retry: " ++ Number_toString ms)%string]
        | None => []
        end
     ++ map (fun line => ("data: " ++ line)%string) (split LF dataStr)
     ++ [""; ""]).

(** [writer.write(message)] *)
Definition write (w : SSEWriter) (message : SSEMessage) : SSEWriter * bool :=
  if closed w then (w, false)
  else
    let (r, returned) := response_write (response w) (wireText message) in
    if returned then ({| response := r; closed := false |}, true)
    else ({| response := r; closed := true |}, false).

Definition dataMessage (v : json) : SSEMessage :=
  {| event := None; data := v; id := None; retry := None |}.

(** [writer.writeData(data)] *)
Definition writeData (w : SSEWriter) (v : json) : SSEWriter * bool :=
  write w (dataMessage v).

(** [writer.comment(text)] *)
Definition comment (w : SSEWriter) (text : string) : SSEWriter * bool :=
  if closed w then (w, false)
  else
    let (r, returned) :=
      response_write (response w) (": " ++ text ++ nl ++ nl) in
    if returned then ({| response := r; closed := false |}, true)
    else ({| response := r; closed := true |}, false).

Definition doneMessage : SSEMessage := dataMessage (JStr "[DONE]").

(** [writer.close()] *)
Definition close (w : SSEWriter) : SSEWriter :=
  if closed w then w
  else
    let (w1, _) := write w doneMessage in
    {| response := response_end (response w1); closed := true |}.

(** *** streamProviderResponse

    The callbacks are known by the calls made on them; they are taken not to
    throw.  A caller that passes no callback ignores the record. *)
Inductive CallbackCall : Type :=
| OnChunk (chunk : json)
| OnComplete (fullResponse : list json)
| OnError (message : string).

(** A thrown value: an [Error] with its message, or something else with
    what [String(...)] makes of it. *)
Inductive Thrown : Type :=
| ThrownError (message : string)
| ThrownOther (asString : string).

(** What the relay sees of the upstream body while it waits: a read that
    yields text ([decoder.decode(value, { stream: true })], with the value
    of [Date.now()] when the read returned), a read that throws, or the
    client closing the connection.  The end of the list is the read with
    [done] set. *)
Inductive UpstreamEvent : Type :=
| Value (now : Z) (text : string)
| Throws (e : Thrown)
| ClientClosed.

Record Response : Type := mkFetched {
  ok : bool;
  status : float;
  body : option (list UpstreamEvent)
}.

Inductive Fetch : Type :=
| FetchThrows (e : Thrown)
| FetchReturns (r : Response).

(** The variables of the function. *)
Record State : Type := mkState {
  chunks : list json;
  ttftMs : option Z;
  buffer : string;
  writer : SSEWriter;
  called : list CallbackCall
}.

(** The object the function returns, [{ success, chunks, ttftMs }]. *)
Record RelayOutcome : Type := mkOutcome {
  success : bool;
  outChunks : list json;
  outTtftMs : option Z
}.

(** A return, with the writer and the callbacks as the call leaves them. *)
Record Returned : Type := mkReturned {
  outcome : RelayOutcome;
  finalWriter : SSEWriter;
  callbackCalls : list CallbackCall
}.

Definition returning (ok : bool) (st : State) : Returned :=
  {| outcome := {| success := ok; outChunks := chunks st; outTtftMs := ttftMs st |};
     finalWriter := writer st;
     callbackCalls := called st |}.

Definition withWriter (st : State) (w : SSEWriter) : State :=
  {| chunks := chunks st; ttftMs := ttftMs st; buffer := buffer st;
     writer := w; called := called st |}.

Definition withCall (st : State) (c : CallbackCall) : State :=
  {| chunks := chunks st; ttftMs := ttftMs st; buffer := buffer st;
     writer := writer st; called := called st ++ [c] |}.

(** [chunks.push(parsed); callbacks?.onChunk?.(parsed)] *)
Definition pushChunk (st : State) (parsed : json) : State :=
  {| chunks := chunks st ++ [parsed]; ttftMs := ttftMs st; buffer := buffer st;
     writer := writer st; called := called st ++ [OnChunk parsed] |}.

(** How the [for] loop over the lines of one read ends: it ran through, or
    it returned from the function because the write was refused. *)
Inductive LoopExit : Type :=
| RanThrough (st : State)
| ClientDisconnected (st : State).

Fixpoint forLines (lines : list string) (st : State) : LoopExit :=
  match lines with
  | [] => RanThrough st
  | line :: rest =>
      if startsWith "data: " line then
        let payload := slice 6 line in
        if String.eqb payload "[DONE]" then forLines rest st
        else
          match JSON_parse payload with
          | Some parsed =>
              let st1 := pushChunk st parsed in
              let (w, written) := write (writer st1) (dataMessage parsed) in
              if written then forLines rest (withWriter st1 w)
              else ClientDisconnected (withWriter st1 w)
          | None => forLines rest st
          end
      else forLines rest st
  end.

(** The code after the [while] loop. *)
Definition afterLoop (st : State) : Returned :=
  let st1 :=
    if startsWith "data: " (buffer st) then
      let payload := slice 6 (buffer st) in
      if truthy payload && negb (String.eqb payload "[DONE]") then
        match JSON_parse payload with
        | Some parsed =>
            let st' := pushChunk st parsed in
            withWriter st' (fst (write (writer st') (dataMessage parsed)))
        | None => st
        end
      else st
    else st in
  let st2 := withCall st1 (OnComplete (chunks st1)) in
  returning true (withWriter st2 (close (writer st2))).

Definition errorEvent (fields : list (string * json)) : SSEMessage :=
  {| event := Some "error"; data := JObj [("error", JObj fields)];
     id := None; retry := None |}.

(** The [catch] block. *)
Definition caught (e : Thrown) (st : State) : Returned :=
  let st1 :=
    withCall st
      (OnError match e with ThrownError m => m | ThrownOther s => s end) in
  let message :=
    match e with ThrownError m => m | ThrownOther _ => "Stream error" end in
  let w := fst (write (writer st1) (errorEvent [("message", JStr message)])) in
  returning false (withWriter st1 (close w)).

(** The [while (true)] loop, one upstream event at a time. *)
Fixpoint readLoop (startTime : Z) (upstream : list UpstreamEvent) (st : State)
  : Returned :=
  match upstream with
  | [] => afterLoop st
  | ClientClosed :: later =>
      readLoop startTime later (withWriter st (onResponseClose (writer st)))
  | Throws e :: _ => caught e st
  | Value now text :: later =>
      let ttft :=
        match ttftMs st with
        | None => Some (now - startTime)%Z
        | Some t => Some t
        end in
      let lines := split LF (buffer st ++ text) in
      let st1 :=
        {| chunks := chunks st; ttftMs := ttft;
           buffer := match pop_value lines with Some b => b | None => "" end;
           writer := writer st; called := called st |} in
      match forLines (pop_rest lines) st1 with
      | RanThrough st2 => readLoop startTime later st2
      | ClientDisconnected st2 => returning false st2
      end
  end.

Definition initialState (w : SSEWriter) : State :=
  {| chunks := []; ttftMs := None; buffer := ""; writer := w; called := [] |}.

(** [streamProviderResponse]: [startTime] is [Date.now()] at the call,
    [fetched] what [await fetch(...)] gives. *)
Definition streamProviderResponse (startTime : Z) (fetched : Fetch)
    (w : SSEWriter) : Returned :=
  let st := initialState w in
  match fetched with
  | FetchThrows e => caught e st
  | FetchReturns r =>
      if negb (ok r) then
        let message := ("Provider returned " ++ Number_toString (status r))%string in
        let st1 := withCall st (OnError message) in
        let w1 :=
          fst (write (writer st1)
                 (errorEvent [("message", JStr message); ("status", JNum (status r))])) in
        returning false (withWriter st1 (close w1))
      else
        match body r with
        | None =>
            let st1 := withCall st (OnError "No response body") in
            returning false (withWriter st1 (close (writer st1)))
        | Some upstream => readLoop startTime upstream st
        end
  end.

End Host.

(** *** aggregateStreamingResponse *)

Record Usage : Type := mkUsage {
  prompt_tokens : float;
  completion_tokens : float;
  total_tokens : json
}.

Record Aggregate : Type := mkAggregate {
  content : string;
  usage : option Usage;
  model : option string;
  finish_reason : option string
}.

(** The part of the loop body that reads [choices[0]].  Reading a property
    of [null] throws. *)
Definition readChoice (acc : Aggregate) (choice : json) : option Aggregate :=
  match choice with
  | JNull => None
  | _ =>
      let content1 :=
        match truthyObject (prop choice "delta") with
        | Some delta =>
            match prop delta "content" with
            | Some (JStr piece) => (content acc ++ piece)%string
            | _ => content acc
            end
        | None => content acc
        end in
      let finish1 :=
        match nonEmptyString (prop choice "finish_reason") with
        | Some reason => Some reason
        | None => finish_reason acc
        end in
      Some {| content := content1; usage := usage acc; model := model acc;
              finish_reason := finish1 |}
  end.

(** The part of the loop body that reads [usage]. *)
Definition readUsage (acc : Aggregate) (c : json) : Aggregate :=
  match truthyObject (prop c "usage") with
  | Some u =>
      match prop u "prompt_tokens", prop u "completion_tokens" with
      | Some (JNum p), Some (JNum q) =>
          {| content := content acc;
             usage := Some {| prompt_tokens := p; completion_tokens := q;
                              total_tokens :=
                                match prop u "total_tokens" with
                                | None | Some JNull => JNum (PrimFloat.add p q)
                                | Some t => t
                                end |};
             model := model acc; finish_reason := finish_reason acc |}
      | _, _ => acc
      end
  | None => acc
  end.

(** One turn of the loop over the chunks. *)
Definition aggregateChunk (acc : Aggregate) (chunk : json) : option Aggregate :=
  if negb (isObject chunk) then Some acc
  else
    let acc1 :=
      match nonEmptyString (prop chunk "model") with
      | Some m => {| content := content acc; usage := usage acc;
                     model := Some m; finish_reason := finish_reason acc |}
      | None => acc
      end in
    let acc2 :=
      match prop chunk "choices" with
      | Some (JArr (choice :: _)) => readChoice acc1 choice
      | _ => Some acc1
      end in
    match acc2 with
    | Some a => Some (readUsage a chunk)
    | None => None
    end.

Fixpoint aggregateFrom (acc : Aggregate) (chunks : list json) : option Aggregate :=
  match chunks with
  | [] => Some acc
  | chunk :: rest =>
      match aggregateChunk acc chunk with
      | Some acc' => aggregateFrom acc' rest
      | None => None
      end
  end.

(** [aggregateStreamingResponse(chunks)]; [None] when it throws. *)
Definition aggregateStreamingResponse (chunks : list json) : option Aggregate :=
  aggregateFrom
    {| content := ""; usage := None; model := None; finish_reason := None |}
    chunks.

(** *** Inputs used in the statements below *)

(** A chunk [{ choices: [{ delta: { content: fragment } }] }]. *)
Definition deltaChunk (fragment : string) : json :=
  JObj [("choices", JArr [JObj [("delta", JObj [("content", JStr fragment)])]])].

(** A line [data: <payload>] of the upstream body. *)
Definition dataLine (payload : string) : string := ("data: " ++ payload)%string.

(** The text of a body made of complete lines, then an unfinished rest. *)
Definition bodyText (lines : list string) (rest : string) : string :=
  (String.concat "" (map (fun l => (l ++ nl)%string) lines) ++ rest)%string.

(** The reads of a body that arrives without a failure. *)
Definition reads (pieces : list (Z * string)) : list UpstreamEvent :=
  map (fun p => Value (fst p) (snd p)) pieces.

(** A text that [split] leaves in one piece: it holds no line feed. *)
Definition isLine (s : string) : Prop := split LF s = [s].

(** The chunk a complete line of the body stands for: the parsed payload of
    a [data: ] line that is not the [DONE] line and that [parse] accepts. *)
Definition validChunk (parse : string -> option json) (line : string)
  : option json :=
  if startsWith "data: " line then
    if String.eqb (slice 6 line) "[DONE]" then None else parse (slice 6 line)
  else None.

(** The chunks of a list of complete lines, in the order of the lines. *)
Definition validChunks (parse : string -> option json) (lines : list string)
  : list json :=
  flat_map (fun line => match validChunk parse line with
                        | Some c => [c]
                        | None => []
                        end) lines.

(** The chunk of the unfinished rest that is left when the body ends. *)
Definition restChunks (parse : string -> option json) (rest : string)
  : list json :=
  if truthy (slice 6 rest) then validChunks parse [rest] else [].

(** [ttftMs] after an undisturbed run: taken at the first read. *)
Definition firstRead (startTime : Z) (pieces : list (Z * string)) : option Z :=
  match pieces with
  | [] => None
  | p :: _ => Some (fst p - startTime)%Z
  end.

(** The call that forwards a chunk to a client that takes it. *)
Definition forwarded (stringify : json -> string) (num : float -> string)
    (chunk : json) : TransportCall :=
  CallWrite (wireText stringify num (dataMessage chunk)) false.

(** The text of the closing message. *)
Definition doneText : string := ("data: [DONE]" ++ nl ++ nl)%string.

(** The stream the client received ends with the [DONE] message and the end
    of the response. *)
Definition endsWithDone (w : SSEWriter) : Prop :=
  exists before, calls (response w) = before ++ [CallWrite doneText false; CallEnd].

(** An open writer over a response that takes every write. *)
Definition healthy (w : SSEWriter) : Prop :=
  closed w = false /\ faults (response w) = [].

(** The client does not close the connection while the relay runs. *)
Definition clientStays (fetched : Fetch) : Prop :=
  match fetched with
  | FetchReturns r =>
      match body r with
      | Some upstream => ~ In ClientClosed upstream
      | None => True
      end
  | FetchThrows _ => True
  end.

(** A writer on a fresh response whose client stays and takes every write. *)
Definition openWriter : SSEWriter :=
  createSSEWriter {| calls := []; faults := [] |}.

(** Stand-ins for the host functions in the examples.  They agree with
    [JSON.parse], [JSON.stringify] and the text of a number on what the
    examples use: the literals below for [demoParse]; [null], the booleans,
    the numbers 1, 2, 3, 200 and 500, strings with nothing to escape, and
    arrays and objects of those for [demoStringify]. *)
Definition demoParse (s : string) : option json :=
  if String.eqb s "null" then Some JNull
  else if String.eqb s "true" then Some (JBool true)
  else if String.eqb s "false" then Some (JBool false)
  else if String.eqb s "1" then Some (JNum 1)
  else if String.eqb s "2" then Some (JNum 2)
  else if String.eqb s "3" then Some (JNum 3)
  else None.

Definition demoNumber (x : float) : string :=
  if PrimFloat.eqb x 1 then "1"
  else if PrimFloat.eqb x 2 then "2"
  else if PrimFloat.eqb x 3 then "3"
  else if PrimFloat.eqb x 200 then "200"
  else if PrimFloat.eqb x 500 then "500"
  else "0".

Definition quoted (s : string) : string :=
  (String "034"%char s ++ String "034"%char "")%string.

Fixpoint demoStringify (v : json) : string :=
  match v with
  | JNull => "null"
  | JBool true => "true"
  | JBool false => "false"
  | JNum x => demoNumber x
  | JStr s => quoted s
  | JArr items => ("[" ++ String.concat "," (map demoStringify items) ++ "]")%string
  | JObj fields =>
      ("{" ++ String.concat ","
                (map (fun kv => match kv with
                                | (k, x) => (quoted k ++ ":" ++ demoStringify x)%string
                                end) fields)
           ++ "}")%string
  end.

Definition demoRelay (upstream : list UpstreamEvent) (w : SSEWriter) : Returned :=
  streamProviderResponse demoParse demoStringify demoNumber 100
    (FetchReturns {| ok := true; status := 200; body := Some upstream |}) w.

(** The client closes the connection, then a complete line arrives: the
    write of its chunk is refused inside the read loop. *)
Definition refusedInLoopRun : Returned :=
  demoRelay [ClientClosed; Value 105 ("data: 1" ++ nl)] openWriter.

(** The client closes the connection, then the body ends on a line without
    a line feed: the write of its chunk is refused after the read loop. *)
Definition refusedAfterLoopRun : Returned :=
  demoRelay [ClientClosed; Value 105 "data: 1"] openWriter.


(** *** Calls on a writer, one after another *)

(** What can happen to a writer: a call of one of its methods, or the
    ['close'] event of its response. *)
Inductive WriterCall : Type :=
| DoWrite (message : SSEMessage)
| DoWriteData (v : json)
| DoComment (text : string)
| DoClose
| ClientCloses.

(** The writer after the call, and what the call returned ([None] for
    [close()] and for the event). *)
Definition perform (stringify : json -> string) (num : float -> string)
    (w : SSEWriter) (c : WriterCall) : SSEWriter * option bool :=
  match c with
  | DoWrite message =>
      let (w', r) := write stringify num w message in (w', Some r)
  | DoWriteData v =>
      let (w', r) := writeData stringify num w v in (w', Some r)
  | DoComment text =>
      let (w', r) := comment w text in (w', Some r)
  | DoClose => (close stringify num w, None)
  | ClientCloses => (onResponseClose w, None)
  end.

Definition performAll (stringify : json -> string) (num : float -> string)
    (cs : list WriterCall) (w : SSEWriter) : SSEWriter :=
  fold_left (fun w' c => fst (perform stringify num w' c)) cs w.

(** *** startKeepAlive

    [setInterval] is known by the runs of its callback, the ticks; the
    interval [intervalMs] itself is not modelled.  The state of the timer is
    whether it is still set. *)

(** One run of the callback of [setInterval]: nothing when the timer was
    cleared; else the timer clears itself when the writer is not open, and
    sends the comment [ping] otherwise. *)
Definition tick (timerSet : bool) (w : SSEWriter) : bool * SSEWriter :=
  if timerSet then
    if negb (isOpen w) then (false, w)
    else (true, fst (comment w "ping"))
  else (false, w).

(** [startKeepAlive(writer)]: the timer is set. *)
Definition startKeepAlive (w : SSEWriter) : bool * SSEWriter := (true, w).

(** The function [startKeepAlive] returns: [clearInterval(timer)]. *)
Definition cancelKeepAlive (state : bool * SSEWriter) : bool * SSEWriter :=
  (false, snd state).

Inductive KeepAliveEvent : Type :=
| Tick
| Cancel
| Meanwhile (c : WriterCall).

Definition keepAliveStep (stringify : json -> string) (num : float -> string)
    (state : bool * SSEWriter) (e : KeepAliveEvent) : bool * SSEWriter :=
  match e with
  | Tick => tick (fst state) (snd state)
  | Cancel => cancelKeepAlive state
  | Meanwhile c => (fst state, fst (perform stringify num (snd state) c))
  end.

Definition keepAliveRun (stringify : json -> string) (num : float -> string)
    (events : list KeepAliveEvent) (state : bool * SSEWriter)
  : bool * SSEWriter :=
  fold_left (keepAliveStep stringify num) events state.

(** The calls made on the writer by others during a run. *)
Definition meanwhile (events : list KeepAliveEvent) : list WriterCall :=
  flat_map (fun e => match e with
                     | Meanwhile c => [c]
                     | _ => []
                     end) events.

Definition pingText : string := (": ping" ++ nl ++ nl)%string.

(** *** Further notions used in the statements below *)

(** The time of the first read that yields text, if the relay gets to one
    before a read throws. *)
Fixpoint firstValueTime (upstream : list UpstreamEvent) : option Z :=
  match upstream with
  | [] => None
  | Value now _ :: _ => Some now
  | Throws _ :: _ => None
  | ClientClosed :: later => firstValueTime later
  end.

(** Two aggregates one after the other: the contents are joined, the later
    of the other fields wins when it is there. *)
Definition later_of {A : Type} (x y : option A) : option A :=
  match y with
  | Some v => Some v
  | None => x
  end.

Definition combine (x y : Aggregate) : Aggregate :=
  {| content := (content x ++ content y)%string;
     usage := later_of (usage x) (usage y);
     model := later_of (model x) (model y);
     finish_reason := later_of (finish_reason x) (finish_reason y) |}.

Definition emptyAggregate : Aggregate :=
  {| content := ""; usage := None; model := None; finish_reason := None |}.

(** A chunk whose first choice is [null]. *)
Definition firstChoiceIsNull (chunk : json) : bool :=
  isObject chunk
  && match prop chunk "choices" with
     | Some (JArr (JNull :: _)) => true
     | _ => false
     end.

(** The text a client has received from a writer: the payloads of the
    writes its response took, one after the other. *)
Definition received (w : SSEWriter) : string :=
  String.concat ""
    (flat_map (fun c => match c with
                        | CallWrite payload false => [payload]
                        | _ => []
                        end) (calls (response w))).

(** A chunk that the host functions write and read back: it is no string
    (a string is written as it is, without quotes), its JSON text is one
    line and is not the [DONE] mark, and parsing that text gives the chunk
    again. *)
Definition readsBack (parse : string -> option json)
    (stringify : json -> string) (c : json) : Prop :=
  (forall s, c <> JStr s)
  /\ isLine (stringify c)
  /\ stringify c <> "[DONE]"
  /\ parse (stringify c) = Some c.

(** A stand-in for [JSON.parse] on the JSON texts of two delta chunks. *)
Definition demoDeltaParse (s : string) : option json :=
  if String.eqb s (demoStringify (deltaChunk "Hel")) then Some (deltaChunk "Hel")
  else if String.eqb s (demoStringify (deltaChunk "lo")) then Some (deltaChunk "lo")
  else None.

End Streaming.

(* ================================================================== *)
(** * Part II: properties *)
(* ================================================================== *)

(** ** Strings *)

Module JsStringFacts.
Import JsString.

Lemma append_nil_r (s : string) : (s ++ "")%string = s.
Proof. induction s as [|c s IH]; simpl; [reflexivity | now rewrite IH]. Qed.

Lemma append_assoc (a b c : string) :
  ((a ++ b) ++ c)%string = (a ++ (b ++ c))%string.
Proof. induction a as [|x a IH]; simpl; [reflexivity | now rewrite IH]. Qed.

Lemma length_append (a b : string) :
  String.length (a ++ b) = String.length a + String.length b.
Proof. induction a as [|x a IH]; simpl; [reflexivity | now rewrite IH]. Qed.

Lemma toLowerCase_append (a b : string) :
  toLowerCase (a ++ b) = (toLowerCase a ++ toLowerCase b)%string.
Proof. induction a as [|x a IH]; simpl; [reflexivity | now rewrite IH]. Qed.

Lemma blank_append (a b : string) : blank (a ++ b) = blank a && blank b.
Proof.
  induction a as [|x a IH]; simpl; [reflexivity|].
  rewrite IH. now rewrite andb_assoc.
Qed.

Lemma blank_trimStart (s : string) : blank (trimStart s) = blank s.
Proof.
  induction s as [|c s IH]; simpl; [reflexivity|].
  destruct (isWhiteSpace c) eqn:W; simpl; [exact IH | now rewrite W].
Qed.

Lemma trimEnd_empty (s : string) : trimEnd s = "" <-> blank s = true.
Proof.
  induction s as [|c s IH]; simpl; [tauto|].
  destruct (trimEnd s) as [|d r] eqn:E.
  - destruct (isWhiteSpace c); simpl.
    + split; intros _; [now apply IH | reflexivity].
    + split; discriminate.
  - split; [discriminate|].
    intros H. apply andb_true_iff in H. destruct H as [_ H].
    apply IH in H. discriminate.
Qed.

(** [trim] leaves something exactly when the string is not blank. *)
Lemma trim_length_pos (s : string) :
  (0 <? String.length (trim s)) = negb (blank s).
Proof.
  unfold trim. rewrite <- (blank_trimStart s).
  destruct (trimEnd (trimStart s)) as [|c r] eqn:E.
  - apply trimEnd_empty in E. now rewrite E.
  - destruct (blank (trimStart s)) eqn:B; [|reflexivity].
    apply trimEnd_empty in B. congruence.
Qed.

Lemma split_not_nil (sep : ascii) (s : string) : split sep s <> [].
Proof.
  destruct s as [|c s]; simpl; [discriminate|].
  destruct (Ascii.eqb c sep); [discriminate|].
  destruct (split sep s); discriminate.
Qed.

(** Splitting a text that arrives in two parts: the complete lines of the
    first part, then the split of its unfinished rest followed by the
    second part. *)
Lemma split_append (sep : ascii) (a b : string) :
  split sep (a ++ b)
  = removelast (split sep a) ++ split sep (last (split sep a) "" ++ b).
Proof.
  induction a as [|c a IH]; [reflexivity|].
  cbn [append split].
  destruct (Ascii.eqb c sep) eqn:C.
  - rewrite IH.
    pose proof (split_not_nil sep a) as N.
    destruct (split sep a) as [|h t]; [congruence|]. reflexivity.
  - rewrite IH.
    pose proof (split_not_nil sep a) as N.
    destruct (split sep a) as [|h t]; [congruence|].
    destruct t as [|x t].
    + cbn [removelast last app append split]. now rewrite C.
    + reflexivity.
Qed.

End JsStringFacts.

(** ** Regular expressions *)

Module RegexFacts.
Import JsString Regex JsStringFacts.

Lemma after_literal_append (p s rest t : string) :
  after_literal p s = Some rest ->
  after_literal p (s ++ t) = Some (rest ++ t)%string.
Proof.
  revert s. induction p as [|a p IH]; intros s H.
  - destruct s; simpl in H; injection H as <-; reflexivity.
  - destruct s as [|b s]; simpl in *; [discriminate|].
    destruct (Ascii.eqb a b); [now apply IH | discriminate].
Qed.

Lemma dotStar_here (k : string -> bool) (s : string) :
  k s = true -> dotStar k s = true.
Proof.
  intros H. destruct s; simpl; [assumption|].
  rewrite H. apply orb_true_r.
Qed.

Lemma dotStar_append (k k' : string -> bool) (t : string) :
  (forall x, k x = true -> k' (x ++ t)%string = true) ->
  forall s, dotStar k s = true -> dotStar k' (s ++ t) = true.
Proof.
  intros K s. induction s as [|c s IH]; intros H.
  - simpl in *. apply dotStar_here. now apply (K "").
  - simpl in *. apply orb_true_iff in H. apply orb_true_iff.
    destruct H as [H|H].
    + apply andb_true_iff in H. destruct H as [L H].
      left. rewrite L. simpl. now apply IH.
    + right. now apply (K (String c s)).
Qed.

(** A match at the start of a text is still one when the text goes on. *)
Lemma exec_append (r : regex) (t : string) :
  forall (k k' : string -> bool) (s : string),
    (forall x, k x = true -> k' (x ++ t)%string = true) ->
    exec r k s = true -> exec r k' (s ++ t) = true.
Proof.
  induction r as [p| | |a IHa b IHb|a IHa b IHb]; intros k k' s K H; simpl in *.
  - destruct (after_literal p s) as [rest|] eqn:E; [|discriminate].
    rewrite (after_literal_append _ _ _ t E). now apply K.
  - destruct s as [|c s]; [discriminate|]. simpl.
    apply andb_true_iff in H. destruct H as [D H].
    rewrite D. simpl. now apply K.
  - now apply (dotStar_append k k' t K).
  - apply orb_true_iff in H. apply orb_true_iff.
    destruct H as [H|H]; [left; now apply (IHa k k') | right; now apply (IHb k k')].
  - apply (IHa (exec b k) (exec b k')); [|assumption].
    intros x Hx. now apply (IHb k k').
Qed.

Lemma test_here (r : regex) (s : string) :
  exec r (fun _ => true) s = true -> test r s = true.
Proof. intros H. destruct s; simpl; rewrite H; reflexivity. Qed.

(** [test] is kept by text added at the end. *)
Lemma test_append (r : regex) (s t : string) :
  test r s = true -> test r (s ++ t) = true.
Proof.
  induction s as [|c s IH]; intros H.
  - simpl in H. rewrite orb_false_r in H. simpl.
    apply test_here.
    apply (exec_append r t (fun _ => true) (fun _ => true) "" (fun _ _ => eq_refl) H).
  - simpl in *. apply orb_true_iff in H. apply orb_true_iff.
    destruct H as [H|H].
    + left.
      apply (exec_append r t (fun _ => true) (fun _ => true) (String c s)
               (fun _ _ => eq_refl) H).
    + right. now apply IH.
Qed.

End RegexFacts.

(** ** The complexity classifier *)

Module ComplexityFacts.
Import JsString Json Regex Complexity JsStringFacts RegexFacts.

Lemma adds_monotone (c c' : bool) (k : Z) :
  (0 <= k)%Z -> (c = true -> c' = true) -> (adds c k <= adds c' k)%Z.
Proof.
  intros K H. unfold adds.
  destruct c; [rewrite (H eq_refl); lia | destruct c'; lia].
Qed.

Lemma tierOf_monotone (a b : Z) :
  (a <= b)%Z -> tier_le (tierOf a) (tierOf b).
Proof.
  intros H. unfold tier_le, tierOf.
  destruct (5 <=? a)%Z eqn:A5, (5 <=? b)%Z eqn:B5,
           (3 <=? a)%Z eqn:A3, (3 <=? b)%Z eqn:B3; simpl; lia.
Qed.

(** C2. The tier follows from the score by fixed thresholds: 5 or more is
    complex, 3 and 4 are moderate, less than 3 (2 included) is simple. *)
Theorem tier_thresholds (messages : list Message) (bodyTools : option json)
    (system : option string) :
  ((5 <= score messages bodyTools system)%Z ->
   classifyComplexity messages bodyTools system = complex)
  /\ ((score messages bodyTools system = 3 \/ score messages bodyTools system = 4)%Z ->
      classifyComplexity messages bodyTools system = moderate)
  /\ ((score messages bodyTools system < 3)%Z ->
      classifyComplexity messages bodyTools system = simple).
Proof.
  unfold classifyComplexity, tierOf.
  repeat split; intros H.
  - apply Z.leb_le in H. now rewrite H.
  - destruct H as [H|H]; rewrite H; reflexivity.
  - assert (A : (5 <=? score messages bodyTools system)%Z = false)
      by (apply Z.leb_gt; lia).
    assert (B : (3 <=? score messages bodyTools system)%Z = false)
      by (apply Z.leb_gt; lia).
    now rewrite A, B.
Qed.

(** The thresholds at work on scores 5, 3, 4 and 2. *)
Lemma tier_thresholds_witness :
  classifyComplexity [textMessage "refactor this: function auth() { const x = 1; }"]
    (Some (JArr [JNull])) None = complex
  /\ classifyComplexity [textMessage "analyze this codebase"]
       (Some (JArr [JNull])) None = moderate
  /\ classifyComplexity [textMessage "analyze and refactor this codebase"]
       (Some (JArr [JNull])) None = moderate
  /\ classifyComplexity [textMessage fenceText] None None = simple.
Proof.
  split; [|split; [|split]].
  - apply (proj1 (tier_thresholds _ _ _)). vm_compute. discriminate.
  - apply (proj1 (proj2 (tier_thresholds _ _ _))). left. reflexivity.
  - apply (proj1 (proj2 (tier_thresholds _ _ _))). right. reflexivity.
  - apply (proj2 (proj2 (tier_thresholds _ _ _))). reflexivity.
Defined.

(** *** Scenarios of the test suite *)

Example no_message_is_simple : classifyComplexity [] None None = simple.
Proof. reflexivity. Qed.

Example greeting_is_simple :
  classifyComplexity [textMessage "hello"] None None = simple.
Proof. reflexivity. Qed.

Example keyword_alone_scores_one :
  score [textMessage "analyze this codebase"] None None = 1%Z.
Proof. reflexivity. Qed.

Example keyword_with_one_tool_is_moderate :
  score [textMessage "analyze this codebase"] (Some (JArr [JObj []])) None = 3%Z
  /\ classifyComplexity [textMessage "analyze this codebase"]
       (Some (JArr [JObj []])) None = moderate.
Proof. split; reflexivity. Qed.

Example let_is_no_code_pattern :
  score [textMessage "let me fix it"] None None = 0%Z.
Proof. reflexivity. Qed.

Example upper_case_keyword_counts :
  score [textMessage "First read it, THEN Refactor"] None None = 2%Z.
Proof. reflexivity. Qed.

Example long_turn_is_moderate :
  score [textMessage (repeated "a" (201 * 100))] None None = 3%Z
  /\ classifyComplexity [textMessage (repeated "a" (201 * 100))] None None
     = moderate.
Proof. split; vm_compute; reflexivity. Qed.

Example tool_results_are_passed_over :
  findLastUserText
    [textMessage "fix the auth bug"; blocksMessage [toolResultBlock]]
  = "fix the auth bug".
Proof. reflexivity. Qed.

(** *** The last six messages *)

Lemma recentMessages_short (messages : list Message) :
  List.length messages <= 6 -> recentMessages messages = messages.
Proof.
  intros H. unfold recentMessages.
  replace (List.length messages - 6) with 0 by lia. reflexivity.
Qed.

Lemma recentMessages_last_six (older recent : list Message) :
  List.length recent = 6 -> recentMessages (older ++ recent) = recent.
Proof.
  intros H. unfold recentMessages.
  rewrite length_app, H.
  replace (List.length older + 6 - 6) with (List.length older) by lia.
  rewrite skipn_app, skipn_all, Nat.sub_diag. reflexivity.
Qed.

Lemma recentMessages_window (older recent : list Message) :
  List.length recent = 6 \/ (older = [] /\ List.length recent <= 6) ->
  recentMessages (older ++ recent) = recent.
Proof.
  intros [H|[-> H]].
  - now apply recentMessages_last_six.
  - now apply recentMessages_short.
Qed.

(** C5, as the code has it.  When at least three of the last six messages
    hold a tool-result block, the signal of recent tool activity adds
    exactly 1 to the score; the signal counts messages, and what lies
    before the last six messages does not enter it. *)
Theorem recent_tool_activity (older recent : list Message)
    (bodyTools : option json) (system : option string) :
  List.length recent = 6 \/ (older = [] /\ List.length recent <= 6) ->
  recentToolSignal (older ++ recent) = recentToolSignal recent
  /\ (3 <= List.length (withToolResult recent) ->
      recentToolSignal (older ++ recent) = 1%Z
      /\ score (older ++ recent) bodyTools system
         = (scoreBesidesRecentTools (older ++ recent) bodyTools system + 1)%Z)
  /\ (List.length (withToolResult recent) < 3 ->
      recentToolSignal (older ++ recent) = 0%Z).
Proof.
  intros W.
  assert (R : recentToolResults (older ++ recent) = List.length (withToolResult recent)).
  { unfold recentToolResults. now rewrite (recentMessages_window older recent W). }
  assert (R' : recentToolResults recent = List.length (withToolResult recent)).
  { unfold recentToolResults.
    rewrite (recentMessages_short recent); [reflexivity|].
    destruct W as [H|[_ H]]; lia. }
  unfold score, scoreBesidesRecentTools, recentToolSignal.
  rewrite R, R'.
  split; [reflexivity|]. split.
  - intros H. apply Nat.leb_le in H. rewrite H. simpl. split; [reflexivity | lia].
  - intros H. apply Nat.leb_gt in H. now rewrite H.
Qed.

(** Six recent messages, three of them tool results, behind two older
    tool results. *)
Lemma recent_tool_activity_witness :
  recentToolSignal
    ([blocksMessage [toolResultBlock]; blocksMessage [toolResultBlock]]
     ++ [textMessage "fix it"; blocksMessage [toolResultBlock];
         textMessage "next"; blocksMessage [toolResultBlock];
         blocksMessage [toolResultBlock]; textMessage "go on"]) = 1%Z.
Proof.
  apply (proj1 (proj1 (proj2
    (recent_tool_activity
       [blocksMessage [toolResultBlock]; blocksMessage [toolResultBlock]]
       [textMessage "fix it"; blocksMessage [toolResultBlock];
        textMessage "next"; blocksMessage [toolResultBlock];
        blocksMessage [toolResultBlock]; textMessage "go on"]
       None None (or_introl eq_refl))) ltac:(vm_compute; lia))).
Defined.

(** C5, as stated, fails: three tool-result blocks inside one recent
    message count as one message, and the signal adds nothing. *)
Lemma three_blocks_in_one_message_add_nothing :
  3 <= toolResultBlocks (recentMessages threeResultsInOneMessage)
  /\ recentToolSignal threeResultsInOneMessage = 0%Z
  /\ score threeResultsInOneMessage None None
     = scoreBesidesRecentTools threeResultsInOneMessage None None.
Proof. vm_compute. repeat split. lia. Qed.

(** C6, as the code has it.  The code-fence message alone, without tools
    and without a system prompt, scores 2 and is classified simple. *)
Theorem code_fence_is_simple (r : option string) (system : option string) :
  system = None \/ system = Some "" ->
  score [{| content := CString fenceText; role := r |}] None system = 2%Z
  /\ classifyComplexity [{| content := CString fenceText; role := r |}] None system
     = simple.
Proof. intros [-> | ->]; split; reflexivity. Qed.

Lemma code_fence_is_simple_witness :
  score [textMessage fenceText] None None = 2%Z
  /\ classifyComplexity [textMessage fenceText] None None = simple.
Proof. apply (code_fence_is_simple None None). left. reflexivity. Defined.

(** C6, as stated, fails: the classifier does not answer moderate. *)
Lemma code_fence_is_not_moderate :
  classifyComplexity [textMessage fenceText] None None <> moderate.
Proof. vm_compute. discriminate. Qed.

(** *** Text added to the current turn *)

Section TypeOnly.

(** A test on a block that reads its [type] only. *)
Variable p : ContentBlock -> bool.
Hypothesis p_type : forall b x, p {| type := type b; text := x |} = p b.

Lemma existsb_appendToLastText (extra : string) (blocks : list ContentBlock) :
  existsb p (appendToLastText extra blocks) = existsb p blocks.
Proof.
  induction blocks as [|b rest IH]; [reflexivity|].
  simpl. destruct (typeIs "text" b && negb (existsb (typeIs "text") rest)).
  - simpl. now rewrite p_type.
  - simpl. now rewrite IH.
Qed.

Lemma forallb_appendToLastText (extra : string) (blocks : list ContentBlock) :
  forallb p (appendToLastText extra blocks) = forallb p blocks.
Proof.
  induction blocks as [|b rest IH]; [reflexivity|].
  simpl. destruct (typeIs "text" b && negb (existsb (typeIs "text") rest)).
  - simpl. now rewrite p_type.
  - simpl. now rewrite IH.
Qed.

Lemma hasBlock_appendText (extra : string) (m : Message) :
  hasBlock p (appendText extra m) = hasBlock p m.
Proof.
  destruct m as [[s|blocks|] r]; try reflexivity.
  apply existsb_appendToLastText.
Qed.

End TypeOnly.

Lemma typeIs_type (t : string) (b : ContentBlock) (x : option string) :
  typeIs t {| type := type b; text := x |} = typeIs t b.
Proof. reflexivity. Qed.

Lemma isToolBlock_type (b : ContentBlock) (x : option string) :
  isToolBlock {| type := type b; text := x |} = isToolBlock b.
Proof. reflexivity. Qed.

Lemma isOnlyToolResult_appendText (extra : string) (m : Message) :
  isOnlyToolResult (appendText extra m) = isOnlyToolResult m.
Proof.
  destruct m as [[s|blocks|] r]; try reflexivity.
  unfold isOnlyToolResult, appendText. cbn [content].
  rewrite (existsb_appendToLastText _ (typeIs_type "text")).
  now rewrite (forallb_appendToLastText _ isToolBlock_type).
Qed.

Lemma filter_none (A : Type) (f : A -> bool) (l : list A) :
  existsb f l = false -> filter f l = [].
Proof.
  induction l as [|a l IH]; [reflexivity|].
  simpl. destruct (f a); simpl; [discriminate | exact IH].
Qed.

Lemma filter_some (A : Type) (f : A -> bool) (l : list A) :
  existsb f l = true -> filter f l <> [].
Proof.
  induction l as [|a l IH]; [discriminate|].
  simpl. destruct (f a); simpl; [discriminate | exact IH].
Qed.

Lemma join_cons (sep x : string) (l : list string) :
  l <> [] -> join sep (x :: l) = (x ++ sep ++ join sep l)%string.
Proof. destruct l; [congruence | reflexivity]. Qed.

(** With a text block present, the text read from the blocks grows by
    exactly what was added. *)
Lemma texts_appendToLastText (extra : string) (blocks : list ContentBlock) :
  existsb (typeIs "text") blocks = true ->
  join " " (map blockText (filter (typeIs "text") (appendToLastText extra blocks)))
  = (join " " (map blockText (filter (typeIs "text") blocks)) ++ extra)%string.
Proof.
  induction blocks as [|b rest IH]; [discriminate|].
  intros H. cbn [appendToLastText].
  destruct (typeIs "text" b) eqn:B; cbn [andb].
  - destruct (existsb (typeIs "text") rest) eqn:R; cbn [negb].
    + cbn [filter]. rewrite B. cbn [map].
      pose proof (filter_some _ _ _ R) as N1.
      assert (N2 : filter (typeIs "text") (appendToLastText extra rest) <> []).
      { apply filter_some.
        now rewrite (existsb_appendToLastText _ (typeIs_type "text")). }
      rewrite !join_cons.
      * rewrite (IH eq_refl). now rewrite !append_assoc.
      * destruct (filter (typeIs "text") rest); [congruence | discriminate].
      * destruct (filter (typeIs "text") (appendToLastText extra rest));
          [congruence | discriminate].
    + cbn [filter]. rewrite (typeIs_type "text" b), B.
      rewrite (filter_none _ _ _ R). reflexivity.
  - cbn [filter]. rewrite B. apply IH.
    simpl in H. now rewrite B in H.
Qed.

Lemma scanBackwards_cons (m : Message) (earlier : list Message) :
  scanBackwards (m :: earlier)
  = if stopsAt m then extractSingleMessageText m else scanBackwards earlier.
Proof.
  unfold stopsAt. simpl. destruct (isOnlyToolResult m); [reflexivity|].
  simpl. reflexivity.
Qed.

Lemma stopsAt_text (m : Message) :
  stopsAt m = true -> extractSingleMessageText m <> "".
Proof.
  unfold stopsAt. intros H E. rewrite E in H.
  apply andb_true_iff in H. destruct H as [_ H]. discriminate.
Qed.

Lemma scanBackwards_passes (later earlier : list Message) :
  scanBackwards later = "" ->
  scanBackwards (later ++ earlier) = scanBackwards earlier.
Proof.
  induction later as [|m later IH]; [reflexivity|].
  intros H. cbn [app]. rewrite scanBackwards_cons in *.
  destruct (stopsAt m) eqn:S; [|now apply IH].
  now apply stopsAt_text in S.
Qed.

Lemma findLastUserText_one (m : Message) :
  findLastUserText [m] <> "" -> stopsAt m = true.
Proof.
  unfold findLastUserText. cbn [rev app]. rewrite scanBackwards_cons.
  destruct (stopsAt m); [reflexivity | simpl; congruence].
Qed.

(** The current turn is the last message the scan stops at. *)
Lemma findLastUserText_current (before after : list Message) (m : Message) :
  findLastUserText after = "" -> stopsAt m = true ->
  findLastUserText (before ++ m :: after) = extractSingleMessageText m.
Proof.
  unfold findLastUserText. intros A S.
  rewrite rev_app_distr. cbn [rev]. rewrite <- app_assoc.
  rewrite (scanBackwards_passes _ _ A).
  cbn [app]. rewrite scanBackwards_cons. now rewrite S.
Qed.

Lemma extract_appendText (extra : string) (m : Message) :
  stopsAt m = true ->
  extractSingleMessageText (appendText extra m)
  = (extractSingleMessageText m ++ extra)%string.
Proof.
  intros S. unfold stopsAt in S. apply andb_true_iff in S. destruct S as [_ S].
  destruct m as [[s|blocks|] r];
    unfold extractSingleMessageText, appendText in *; cbn [content] in *.
  - reflexivity.
  - destruct (existsb (typeIs "text") blocks) eqn:T.
    + apply (texts_appendToLastText extra blocks T).
    + rewrite (filter_none _ _ _ T) in S. discriminate.
  - discriminate.
Qed.

Lemma stopsAt_appendText (extra : string) (m : Message) :
  stopsAt m = true -> stopsAt (appendText extra m) = true.
Proof.
  intros S. pose proof (extract_appendText extra m S) as E.
  unfold stopsAt in *. rewrite isOnlyToolResult_appendText, E.
  apply andb_true_iff in S. destruct S as [O S].
  rewrite O. cbn [andb]. rewrite trim_length_pos in *.
  rewrite blank_append. destruct (blank (extractSingleMessageText m)); [discriminate | reflexivity].
Qed.

(** *** Each signal of the current turn, under text added at the end *)

Lemma tokens_monotone (a b : nat) : a <= b -> (tokens a <= tokens b)%Z.
Proof. intros H. unfold tokens. apply Z.div_le_mono; lia. Qed.

Lemma currentTurnScore_append (t extra : string) :
  (currentTurnScore t <= currentTurnScore (t ++ extra))%Z.
Proof.
  assert (T : forall r, test r t = true -> test r (t ++ extra) = true)
    by (intros r; apply test_append).
  assert (L : (tokens (String.length t) <= tokens (String.length (t ++ extra)))%Z)
    by (apply tokens_monotone; rewrite length_append; lia).
  unfold currentTurnScore.
  assert (C : (codeSignal t <= codeSignal (t ++ extra))%Z).
  { apply adds_monotone; [lia|]. intros H.
    apply orb_true_iff in H. apply orb_true_iff.
    destruct H as [H|H]; [left | right]; now apply T. }
  assert (A : (analyticalSignal t <= analyticalSignal (t ++ extra))%Z)
    by (apply adds_monotone; [lia | apply T]).
  assert (M : (computationSignal t <= computationSignal (t ++ extra))%Z)
    by (apply adds_monotone; [lia | apply T]).
  assert (S : (multiStepSignal t <= multiStepSignal (t ++ extra))%Z)
    by (apply adds_monotone; [lia | apply T]).
  assert (Z1 : (sizeSignal t <= sizeSignal (t ++ extra))%Z).
  { unfold sizeSignal. cbv zeta.
    apply Z.add_le_mono; (apply adds_monotone; [lia|]); intros H;
      apply Z.ltb_lt in H; apply Z.ltb_lt; lia. }
  assert (R : (creativeSignal t <= creativeSignal (t ++ extra))%Z)
    by (apply adds_monotone; [lia | apply T]).
  assert (E : (engineeringSignal t <= engineeringSignal (t ++ extra))%Z)
    by (apply adds_monotone; [lia | apply T]).
  lia.
Qed.

(** *** The session-level signals do not see the text *)

Lemma existsb_replace (f : Message -> bool) (before after : list Message)
    (m m' : Message) :
  f m' = f m ->
  existsb f (before ++ m' :: after) = existsb f (before ++ m :: after).
Proof. intros H. rewrite !existsb_app. simpl. now rewrite H. Qed.

Lemma filter_skipn_replace (f : Message -> bool) (before after : list Message)
    (m m' : Message) :
  f m' = f m ->
  forall n,
    List.length (filter f (skipn n (before ++ m' :: after)))
    = List.length (filter f (skipn n (before ++ m :: after))).
Proof.
  intros H. induction before as [|a before IH]; intros n.
  - destruct n; cbn [skipn app filter]; [rewrite H; destruct (f m); reflexivity | reflexivity].
  - destruct n; [|apply IH].
    specialize (IH 0). cbn [skipn app filter] in *.
    destruct (f a); cbn [List.length]; now rewrite IH.
Qed.

Lemma sessionSignals_appendText (extra : string) (before after : list Message)
    (m : Message) (bodyTools : option json) :
  toolSignal (before ++ appendText extra m :: after) bodyTools
  = toolSignal (before ++ m :: after) bodyTools
  /\ recentToolSignal (before ++ appendText extra m :: after)
     = recentToolSignal (before ++ m :: after).
Proof.
  split.
  - unfold toolSignal, hasTools.
    now rewrite (existsb_replace _ before after m (appendText extra m)
                   (hasBlock_appendText _ isToolBlock_type extra m)).
  - unfold recentToolSignal, recentToolResults, recentMessages, withToolResult.
    rewrite !length_app. cbn [List.length].
    now rewrite (filter_skipn_replace _ before after m (appendText extra m)
                   (hasBlock_appendText _ (typeIs_type "tool_result") extra m)).
Qed.

(** C9. Text added at the end of the current turn's message (a code-fence
    marker, a keyword, or enough characters to pass a token threshold), all
    else unchanged, lengthens the scored text by just that and lowers
    neither the score nor the tier. *)
Theorem appending_never_lowers (before after : list Message) (m : Message)
    (extra : string) (bodyTools : option json) (system : option string) :
  findLastUserText after = "" ->
  findLastUserText [m] <> "" ->
  findLastUserText (before ++ appendText extra m :: after)
  = (findLastUserText (before ++ m :: after) ++ extra)%string
  /\ (score (before ++ m :: after) bodyTools system
      <= score (before ++ appendText extra m :: after) bodyTools system)%Z
  /\ tier_le (classifyComplexity (before ++ m :: after) bodyTools system)
             (classifyComplexity (before ++ appendText extra m :: after)
                bodyTools system).
Proof.
  intros A M. apply findLastUserText_one in M.
  pose proof (stopsAt_appendText extra m M) as M'.
  assert (T : findLastUserText (before ++ appendText extra m :: after)
              = (findLastUserText (before ++ m :: after) ++ extra)%string).
  { rewrite (findLastUserText_current before after _ A M').
    rewrite (findLastUserText_current before after _ A M).
    now apply extract_appendText. }
  assert (S : (score (before ++ m :: after) bodyTools system
               <= score (before ++ appendText extra m :: after) bodyTools system)%Z).
  { unfold score.
    destruct (sessionSignals_appendText extra before after m bodyTools) as [E1 E2].
    rewrite E1, E2, T, toLowerCase_append.
    pose proof (currentTurnScore_append
                  (toLowerCase (findLastUserText (before ++ m :: after)))
                  (toLowerCase extra)).
    lia. }
  split; [exact T|]. split; [exact S|].
  unfold classifyComplexity. now apply tierOf_monotone.
Qed.

(** A fence added to a plain request lifts the score from 0 to 2. *)
Lemma appending_never_lowers_witness :
  (score ([] ++ textMessage "hello" :: []) None None
   <= score ([] ++ appendText " ```" (textMessage "hello") :: []) None None)%Z.
Proof.
  apply (proj1 (proj2
    (appending_never_lowers [] [] (textMessage "hello") " ```" None None
       eq_refl ltac:(vm_compute; discriminate)))).
Defined.


(** *** The range of the score *)

Lemma adds_bounds (c : bool) (k : Z) : (0 <= k)%Z -> (0 <= adds c k <= k)%Z.
Proof. intros H. unfold adds. destruct c; lia. Qed.

Lemma currentTurnScore_bounds (t : string) : (0 <= currentTurnScore t <= 11)%Z.
Proof.
  unfold currentTurnScore, codeSignal, analyticalSignal, computationSignal,
    multiStepSignal, sizeSignal, creativeSignal, engineeringSignal.
  cbv zeta.
  repeat match goal with
         | |- context [adds ?c ?k] =>
             let H := fresh "B" in
             pose proof (adds_bounds c k ltac:(lia)) as H;
             generalize dependent (adds c k); intros
         end.
  lia.
Qed.

Lemma toolSignal_bounds (messages : list Message) (bodyTools : option json) :
  (0 <= toolSignal messages bodyTools <= 4)%Z.
Proof.
  unfold toolSignal.
  repeat match goal with
         | |- context [adds ?c ?k] =>
             let H := fresh "B" in
             pose proof (adds_bounds c k ltac:(lia)) as H;
             generalize dependent (adds c k); intros
         end.
  lia.
Qed.

Lemma systemSignal_bounds (system : option string) :
  (0 <= systemSignal system <= 3)%Z.
Proof.
  unfold systemSignal. destruct system as [s|]; [|lia].
  destruct (truthy s); [|lia]. cbv zeta.
  repeat match goal with
         | |- context [adds ?c ?k] =>
             let H := fresh "B" in
             pose proof (adds_bounds c k ltac:(lia)) as H;
             generalize dependent (adds c k); intros
         end.
  lia.
Qed.

(** X1. The score lies between 0 and 19 for every request, and 19 is
    reached: no signal subtracts, and the signals together add at most
    11 (current turn) + 4 (tools) + 1 (recent tool results) + 3 (system
    prompt). *)
Theorem score_range :
  (forall messages bodyTools system,
     (0 <= score messages bodyTools system <= maxScore)%Z)
  /\ score busiestHistory fifteenTools hugePrompt = maxScore.
Proof.
  split.
  - intros messages bodyTools system. unfold score, maxScore. cbv zeta.
    pose proof (currentTurnScore_bounds (toLowerCase (findLastUserText messages))).
    pose proof (toolSignal_bounds messages bodyTools).
    pose proof (systemSignal_bounds system).
    pose proof (adds_bounds (3 <=? recentToolResults messages) 1 ltac:(lia)).
    unfold recentToolSignal. lia.
  - vm_compute. reflexivity.
Qed.

(** *** The message the scan stops at *)

Lemma scanBackwards_spec (reversed : list Message) :
  (scanBackwards reversed = ""
   /\ Forall (fun m => stopsAt m = false) reversed)
  \/ (exists later m earlier,
        reversed = later ++ m :: earlier
        /\ Forall (fun x => stopsAt x = false) later
        /\ stopsAt m = true
        /\ scanBackwards reversed = extractSingleMessageText m).
Proof.
  induction reversed as [|m l IH].
  - left. split; [reflexivity | constructor].
  - rewrite scanBackwards_cons. destruct (stopsAt m) eqn:S.
    + right. exists [], m, l. repeat split; [constructor | exact S].
    + destruct IH as [[E F]|[later [x [earlier [E [F [Sx T]]]]]]].
      * left. split; [exact E | now constructor].
      * right. exists (m :: later), x, earlier. subst l.
        repeat split; [now constructor | exact Sx | exact T].
Qed.

(** X2. The text [findLastUserText] returns is that of the last message
    that is not made of tool blocks only and whose text is not blank; when
    there is no such message it returns the empty string.  Messages behind
    the current turn (tool results, blank text) are passed over. *)
Theorem findLastUserText_spec (messages : list Message) :
  (findLastUserText messages = ""
   /\ Forall (fun m => stopsAt m = false) messages)
  \/ (exists before m after,
        messages = before ++ m :: after
        /\ Forall (fun x => stopsAt x = false) after
        /\ isOnlyToolResult m = false
        /\ blank (extractSingleMessageText m) = false
        /\ findLastUserText messages = extractSingleMessageText m).
Proof.
  unfold findLastUserText.
  destruct (scanBackwards_spec (rev messages))
    as [[E F]|[later [m [earlier [E [F [S T]]]]]]].
  - left. split; [exact E|].
    rewrite <- (rev_involutive messages). now apply Forall_rev.
  - right. exists (rev earlier), m, (rev later).
    assert (M : messages = rev earlier ++ m :: rev later).
    { rewrite <- (rev_involutive messages), E, rev_app_distr.
      cbn [rev]. now rewrite <- app_assoc. }
    unfold stopsAt in S. apply andb_true_iff in S. destruct S as [S1 S2].
    rewrite trim_length_pos in S2.
    repeat split.
    + exact M.
    + now apply Forall_rev.
    + now destruct (isOnlyToolResult m).
    + now destruct (blank (extractSingleMessageText m)).
    + exact T.
Qed.

(** *** Older history *)

Lemma scanBackwards_stops (later earlier : list Message) :
  scanBackwards later <> "" ->
  scanBackwards (later ++ earlier) = scanBackwards later.
Proof.
  induction later as [|m later IH]; intros H; [now elim H|].
  cbn [app]. rewrite !scanBackwards_cons in *.
  destruct (stopsAt m); [reflexivity | now apply IH].
Qed.

Lemma findLastUserText_older (older recent : list Message) :
  findLastUserText recent <> "" ->
  findLastUserText (older ++ recent) = findLastUserText recent.
Proof.
  unfold findLastUserText. intros H.
  rewrite rev_app_distr. now apply scanBackwards_stops.
Qed.

Lemma recentMessages_older (older recent : list Message) :
  6 <= List.length recent ->
  recentMessages (older ++ recent) = recentMessages recent.
Proof.
  intros H. unfold recentMessages.
  rewrite length_app, skipn_app.
  rewrite skipn_all2 by lia.
  replace (List.length older + List.length recent - 6 - List.length older)
    with (List.length recent - 6) by lia.
  reflexivity.
Qed.

(** X3. What lies before the last six messages weighs at most 2: for a
    history [recent] of six messages or more that holds the current turn,
    messages put in front of it change the score only through the signal of
    tool presence, by 0 or by 2, and by 0 when they hold no tool block. *)
Theorem older_history_is_capped (older recent : list Message)
    (bodyTools : option json) (system : option string) :
  6 <= List.length recent ->
  findLastUserText recent <> "" ->
  (score recent bodyTools system <= score (older ++ recent) bodyTools system
   <= score recent bodyTools system + 2)%Z
  /\ (existsb (hasBlock isToolBlock) older = false ->
      classifyComplexity (older ++ recent) bodyTools system
      = classifyComplexity recent bodyTools system).
Proof.
  intros L T.
  unfold classifyComplexity, score, recentToolSignal, recentToolResults.
  rewrite (findLastUserText_older older recent T).
  rewrite (recentMessages_older older recent L).
  unfold toolSignal, hasTools. rewrite existsb_app.
  split.
  - pose proof (adds_bounds
                  ((0 <? toolCount bodyTools)
                   || (existsb (hasBlock isToolBlock) older
                       || existsb (hasBlock isToolBlock) recent)) 2 ltac:(lia)).
    pose proof (adds_monotone
                  ((0 <? toolCount bodyTools) || existsb (hasBlock isToolBlock) recent)
                  ((0 <? toolCount bodyTools)
                   || (existsb (hasBlock isToolBlock) older
                       || existsb (hasBlock isToolBlock) recent)) 2 ltac:(lia)) as M.
    pose proof (adds_bounds
                  ((0 <? toolCount bodyTools) || existsb (hasBlock isToolBlock) recent)
                  2 ltac:(lia)).
    assert (M' := M ltac:(intros X; apply orb_true_iff in X; apply orb_true_iff;
                          destruct X as [X|X]; [now left | right; rewrite X;
                          apply orb_true_r])).
    lia.
  - intros O. rewrite O. reflexivity.
Qed.

(** Twelve plain messages in front of a six-message session. *)
Lemma older_history_is_capped_witness :
  classifyComplexity
    (repeat (textMessage "please refactor and analyze the parser") 12
     ++ [textMessage "ok"; blocksMessage [toolResultBlock]; textMessage "ok";
         textMessage "ok"; textMessage "ok"; textMessage "what time is it?"])
    None None
  = classifyComplexity
      [textMessage "ok"; blocksMessage [toolResultBlock]; textMessage "ok";
       textMessage "ok"; textMessage "ok"; textMessage "what time is it?"]
      None None.
Proof.
  apply (proj2 (older_history_is_capped
                  (repeat (textMessage "please refactor and analyze the parser") 12)
                  [textMessage "ok"; blocksMessage [toolResultBlock]; textMessage "ok";
                   textMessage "ok"; textMessage "ok"; textMessage "what time is it?"]
                  None None ltac:(cbn; lia) ltac:(vm_compute; discriminate))).
  reflexivity.
Defined.


(** *** What the classifier reads of a message *)

Lemma sameSignals_refl (m : Message) : sameSignals m m.
Proof. repeat split. Qed.

Lemma Forall2_sameSignals_refl (l : list Message) : Forall2 sameSignals l l.
Proof. induction l; constructor; [apply sameSignals_refl | assumption]. Qed.

Lemma Forall2_rev_both (A : Type) (R : A -> A -> Prop) (l l' : list A) :
  Forall2 R l l' -> Forall2 R (rev l) (rev l').
Proof.
  induction 1 as [|a b l l' H _ IH]; [constructor|].
  cbn [rev]. apply Forall2_app; [exact IH | now repeat constructor].
Qed.

Lemma Forall2_skipn (A : Type) (R : A -> A -> Prop) (l l' : list A) :
  Forall2 R l l' -> forall n, Forall2 R (skipn n l) (skipn n l').
Proof.
  induction 1 as [|a b l l' H H' IH]; intros n.
  - rewrite !skipn_nil. constructor.
  - destruct n; [now constructor | apply IH].
Qed.

Lemma scanBackwards_congruence (l l' : list Message) :
  Forall2 sameSignals l l' ->
  toLowerCase (scanBackwards l) = toLowerCase (scanBackwards l').
Proof.
  induction 1 as [|m m' l l' [S [T _]] _ IH]; [reflexivity|].
  rewrite !scanBackwards_cons, <- S.
  destruct (stopsAt m); assumption.
Qed.

Lemma existsb_congruence (f : Message -> bool) (l l' : list Message) :
  Forall2 (fun m m' => f m = f m') l l' -> existsb f l = existsb f l'.
Proof.
  induction 1 as [|m m' l l' H _ IH]; [reflexivity|].
  cbn [existsb]. now rewrite H, IH.
Qed.

Lemma filter_length_congruence (f : Message -> bool) (l l' : list Message) :
  Forall2 (fun m m' => f m = f m') l l' ->
  List.length (filter f l) = List.length (filter f l').
Proof.
  induction 1 as [|m m' l l' H _ IH]; [reflexivity|].
  cbn [filter]. rewrite H. destruct (f m'); cbn [List.length]; now rewrite IH.
Qed.

(** Two histories that agree, message by message, on what the classifier
    reads get the same score. *)
Lemma score_congruence (messages messages' : list Message)
    (bodyTools : option json) (system : option string) :
  Forall2 sameSignals messages messages' ->
  score messages bodyTools system = score messages' bodyTools system.
Proof.
  intros H. unfold score. cbv zeta.
  assert (T : toLowerCase (findLastUserText messages)
              = toLowerCase (findLastUserText messages')).
  { unfold findLastUserText.
    now apply scanBackwards_congruence, Forall2_rev_both. }
  assert (E : existsb (hasBlock isToolBlock) messages
              = existsb (hasBlock isToolBlock) messages').
  { apply existsb_congruence.
    eapply Forall2_impl; [|exact H]. now intros a b [_ [_ [X _]]]. }
  assert (R : recentToolResults messages = recentToolResults messages').
  { unfold recentToolResults, recentMessages, withToolResult.
    rewrite (Forall2_length H).
    apply filter_length_congruence, Forall2_skipn.
    eapply Forall2_impl; [|exact H]. now intros a b [_ [_ [_ X]]]. }
  unfold toolSignal, hasTools, recentToolSignal.
  now rewrite T, E, R.
Qed.

Lemma score_replace (before after : list Message) (m m' : Message)
    (bodyTools : option json) (system : option string) :
  sameSignals m m' ->
  score (before ++ m :: after) bodyTools system
  = score (before ++ m' :: after) bodyTools system.
Proof.
  intros H. apply score_congruence.
  apply Forall2_app; [apply Forall2_sameSignals_refl|].
  constructor; [exact H | apply Forall2_sameSignals_refl].
Qed.

(** X4. A message whose content is a string and a message whose content is
    one text block with the same text are scored alike, wherever they stand
    in the history and whatever their roles. *)
Theorem string_and_text_block_alike (before after : list Message)
    (t : string) (r r' : option string) (bodyTools : option json)
    (system : option string) :
  classifyComplexity
    (before ++ {| content := CBlocks [textBlock t]; role := r |} :: after)
    bodyTools system
  = classifyComplexity
      (before ++ {| content := CString t; role := r' |} :: after)
      bodyTools system.
Proof.
  unfold classifyComplexity. f_equal. apply score_replace.
  repeat split.
Qed.

Lemma isWhiteSpace_lowerChar (c : ascii) :
  isWhiteSpace (lowerChar c) = isWhiteSpace c.
Proof.
  destruct c as [[] [] [] [] [] [] [] []]; reflexivity.
Qed.

Lemma blank_toLowerCase (s : string) : blank (toLowerCase s) = blank s.
Proof.
  induction s as [|c s IH]; [reflexivity|].
  cbn [toLowerCase blank]. now rewrite isWhiteSpace_lowerChar, IH.
Qed.

(** X5. The classifier does not see the case of letters: two texts that
    agree once lower-cased are scored alike, wherever the message stands in
    the history. *)
Theorem case_is_ignored (before after : list Message) (t t' : string)
    (r r' : option string) (bodyTools : option json) (system : option string) :
  toLowerCase t = toLowerCase t' ->
  classifyComplexity
    (before ++ {| content := CString t; role := r |} :: after) bodyTools system
  = classifyComplexity
      (before ++ {| content := CString t'; role := r' |} :: after)
      bodyTools system.
Proof.
  intros E. unfold classifyComplexity. f_equal. apply score_replace.
  unfold sameSignals, stopsAt, extractSingleMessageText, isOnlyToolResult, hasBlock.
  cbn [content]. rewrite !trim_length_pos.
  rewrite <- (blank_toLowerCase t), <- (blank_toLowerCase t'), E.
  repeat split.
Qed.

Lemma case_is_ignored_witness :
  classifyComplexity
    ([] ++ {| content := CString "ANALYZE and Refactor This"; role := None |} :: [])
    (Some (JArr [JNull])) None
  = classifyComplexity
      ([] ++ {| content := CString "analyze and refactor this"; role := None |} :: [])
      (Some (JArr [JNull])) None.
Proof.
  apply (case_is_ignored [] [] "ANALYZE and Refactor This"
           "analyze and refactor this" None None (Some (JArr [JNull])) None).
  reflexivity.
Defined.

(** *** More tools, a longer system prompt *)

Lemma truthy_append (s e : string) :
  truthy s = true -> truthy (s ++ e)%string = true.
Proof. destruct s; [discriminate | reflexivity]. Qed.

Lemma systemSignal_append (s e : string) :
  (systemSignal (Some s) <= systemSignal (Some (s ++ e)%string))%Z.
Proof.
  unfold systemSignal. destruct (truthy s) eqn:T.
  - rewrite (truthy_append s e T). cbv zeta.
    assert (L : (tokens (String.length s) <= tokens (String.length (s ++ e)))%Z)
      by (apply tokens_monotone; rewrite length_append; lia).
    apply Z.add_le_mono; (apply adds_monotone; [lia|]); intros H;
      apply Z.ltb_lt in H; apply Z.ltb_lt; lia.
  - pose proof (systemSignal_bounds (Some (s ++ e)%string)) as B.
    unfold systemSignal in B. lia.
Qed.

Lemma toolSignal_more (messages : list Message) (tools more : list json) :
  (toolSignal messages (Some (JArr tools))
   <= toolSignal messages (Some (JArr (tools ++ more))))%Z.
Proof.
  unfold toolSignal, hasTools, toolCount. rewrite length_app.
  repeat apply Z.add_le_mono; (apply adds_monotone; [lia|]); intros H.
  - apply orb_true_iff in H. apply orb_true_iff.
    destruct H as [H|H]; [left | now right].
    apply Nat.ltb_lt in H. apply Nat.ltb_lt. lia.
  - apply Nat.leb_le in H. apply Nat.leb_le. lia.
  - apply Nat.leb_le in H. apply Nat.leb_le. lia.
Qed.

(** X6. More tools and a longer system prompt never lower the score or the
    tier; a request without a tool list and without a system prompt scores
    lowest among the requests with the same messages. *)
Theorem tools_and_prompt_never_lower (messages : list Message)
    (tools more : list json) (s e : string) :
  (score messages (Some (JArr tools)) (Some s)
   <= score messages (Some (JArr (tools ++ more))) (Some (s ++ e)%string))%Z
  /\ tier_le (classifyComplexity messages (Some (JArr tools)) (Some s))
             (classifyComplexity messages (Some (JArr (tools ++ more)))
                (Some (s ++ e)%string))
  /\ forall bodyTools system,
       (score messages None None <= score messages bodyTools system)%Z.
Proof.
  assert (A : (score messages (Some (JArr tools)) (Some s)
               <= score messages (Some (JArr (tools ++ more))) (Some (s ++ e)%string))%Z).
  { unfold score. cbv zeta.
    pose proof (toolSignal_more messages tools more).
    pose proof (systemSignal_append s e). lia. }
  split; [exact A|]. split.
  - unfold classifyComplexity. now apply tierOf_monotone.
  - intros bodyTools system. unfold score. cbv zeta.
    pose proof (systemSignal_bounds system).
    assert (T : (toolSignal messages None <= toolSignal messages bodyTools)%Z).
    { unfold toolSignal, hasTools, adds. cbn [toolCount].
      destruct (existsb (hasBlock isToolBlock) messages),
               (0 <? toolCount bodyTools),
               (Nat.leb 5 (toolCount bodyTools)),
               (Nat.leb 15 (toolCount bodyTools)); cbn; lia. }
    cbn [systemSignal]. lia.
Qed.

End ComplexityFacts.

(** ** The streaming module *)

Module StreamingFacts.
Import JsString Json Streaming JsStringFacts.

(** *** Lists and lines *)

Lemma removelast_append (A : Type) (l1 l2 : list A) :
  l2 <> [] -> removelast (l1 ++ l2) = l1 ++ removelast l2.
Proof. intros H. now apply removelast_app. Qed.

Lemma last_append (A : Type) (l1 l2 : list A) (d : A) :
  l2 <> [] -> last (l1 ++ l2) d = last l2 d.
Proof.
  intros H. induction l1 as [|a l1 IH]; [reflexivity|].
  cbn [app]. rewrite <- IH.
  destruct (l1 ++ l2) eqn:E; [|reflexivity].
  apply app_eq_nil in E. destruct E. congruence.
Qed.

Lemma split_line_then (a b : string) :
  isLine a -> split LF (a ++ nl ++ b) = a :: split LF b.
Proof.
  unfold isLine. induction a as [|c a IH]; intros H.
  - reflexivity.
  - cbn [append split] in *.
    destruct (Ascii.eqb c LF); [discriminate|].
    destruct (split LF a) as [|h t] eqn:E.
    + injection H as H. subst a. discriminate.
    + injection H as H1 H2. subst h t.
      now rewrite (IH eq_refl).
Qed.

Lemma concat_cons (x : string) (xs : list string) :
  String.concat "" (x :: xs) = (x ++ String.concat "" xs)%string.
Proof. destruct xs; cbn [String.concat append]; [now rewrite append_nil_r | reflexivity]. Qed.

Lemma concat_append (xs ys : list string) :
  String.concat "" (xs ++ ys)
  = (String.concat "" xs ++ String.concat "" ys)%string.
Proof.
  induction xs as [|x xs IH]; [reflexivity|].
  cbn [app]. now rewrite !concat_cons, IH, append_assoc.
Qed.

Lemma bodyText_cons (l : string) (lines : list string) (rest : string) :
  bodyText (l :: lines) rest = (l ++ nl ++ bodyText lines rest)%string.
Proof.
  unfold bodyText. cbn [map]. now rewrite concat_cons, !append_assoc.
Qed.

(** The lines of a body made of complete lines and an unfinished rest. *)
Lemma split_bodyText (lines : list string) (rest : string) :
  Forall isLine lines -> isLine rest ->
  split LF (bodyText lines rest) = lines ++ [rest].
Proof.
  intros L R. induction L as [|l lines Hl _ IH]; [exact R|].
  rewrite bodyText_cons, (split_line_then l _ Hl), IH. reflexivity.
Qed.

Section Host.

Variable JSON_parse : string -> option json.
Variable JSON_stringify : json -> string.
Variable Number_toString : float -> string.

Local Abbreviation write := (write JSON_stringify Number_toString).
Local Abbreviation close := (close JSON_stringify Number_toString).
Local Abbreviation wireText := (wireText JSON_stringify Number_toString).
Local Abbreviation forLines := (forLines JSON_parse JSON_stringify Number_toString).
Local Abbreviation afterLoop := (afterLoop JSON_parse JSON_stringify Number_toString).
Local Abbreviation caught := (caught JSON_stringify Number_toString).
Local Abbreviation readLoop := (readLoop JSON_parse JSON_stringify Number_toString).
Local Abbreviation relay :=
  (streamProviderResponse JSON_parse JSON_stringify Number_toString).
Local Abbreviation forwarded := (forwarded JSON_stringify Number_toString).
Local Abbreviation validChunks := (validChunks JSON_parse).
Local Abbreviation restChunks := (restChunks JSON_parse).

(** *** SSEWriter *)

Lemma wireText_done : wireText doneMessage = doneText.
Proof. reflexivity. Qed.

Lemma write_closed (w : SSEWriter) (m : SSEMessage) :
  closed w = true -> write w m = (w, false).
Proof. intros H. unfold Streaming.write. now rewrite H. Qed.

(** A refused write leaves the writer closed. *)
Lemma write_refused (w : SSEWriter) (m : SSEMessage) :
  snd (write w m) = false -> closed (fst (write w m)) = true.
Proof.
  unfold Streaming.write. destruct (closed w) eqn:C; [intros _; exact C|].
  destruct (response_write (response w) (wireText m)) as [r returned].
  destruct returned; [discriminate | reflexivity].
Qed.

Lemma write_healthy (w : SSEWriter) (m : SSEMessage) :
  healthy w ->
  write w m
  = ({| response := {| calls := calls (response w) ++ [CallWrite (wireText m) false];
                       faults := [] |};
        closed := false |}, true).
Proof.
  intros [C F]. unfold Streaming.write, response_write. now rewrite C, F.
Qed.

Lemma close_closed (w : SSEWriter) : closed (close w) = true.
Proof.
  unfold Streaming.close. destruct (closed w) eqn:C; [exact C|].
  destruct (write w doneMessage). reflexivity.
Qed.

Lemma close_of_closed (w : SSEWriter) : closed w = true -> close w = w.
Proof. intros H. unfold Streaming.close. now rewrite H. Qed.

Lemma close_healthy (w : SSEWriter) :
  healthy w ->
  close w
  = {| response := {| calls := calls (response w) ++ [CallWrite doneText false; CallEnd];
                      faults := [] |};
       closed := true |}.
Proof.
  intros H. unfold Streaming.close. rewrite (write_healthy w doneMessage H).
  destruct H as [C F]. rewrite C. unfold response_end. cbn.
  now rewrite <- app_assoc.
Qed.

(** C7. [close()] is idempotent.  On an open writer the first call hands the
    response exactly one [data: [DONE]] message, ends it and leaves the
    writer closed; on a closed writer [close()] does nothing; so a second
    call adds nothing to what the first one did. *)
Theorem close_idempotent (w : SSEWriter) :
  (closed w = false ->
   closed (close w) = true
   /\ exists threw,
        calls (response (close w))
        = calls (response w) ++ [CallWrite doneText threw; CallEnd])
  /\ (closed w = true -> close w = w)
  /\ close (close w) = close w.
Proof.
  split; [|split].
  - intros C. split; [apply close_closed|].
    unfold Streaming.close, Streaming.write, response_write. rewrite C.
    destruct (faults (response w)) as [|[|] later]; cbn;
      eexists; rewrite <- app_assoc; reflexivity.
  - apply close_of_closed.
  - apply close_of_closed, close_closed.
Qed.

(** *** The loop over the lines of one read *)

Lemma forLines_append (l1 l2 : list string) (st : State) :
  forLines (l1 ++ l2) st
  = match forLines l1 st with
    | RanThrough st' => forLines l2 st'
    | ClientDisconnected st' => ClientDisconnected st'
    end.
Proof.
  revert st. induction l1 as [|line l1 IH]; intros st; [reflexivity|].
  cbn [app Streaming.forLines].
  destruct (startsWith "data: " line); [|apply IH].
  destruct (String.eqb (slice 6 line) "[DONE]"); [apply IH|].
  destruct (JSON_parse (slice 6 line)) as [parsed|]; [|apply IH].
  destruct (write (writer (pushChunk st parsed)) (dataMessage parsed)) as [w written].
  destruct written; [apply IH | reflexivity].
Qed.

(** A line that stands for no chunk leaves no trace. *)
Lemma forLines_skip (line : string) (rest : list string) (st : State) :
  validChunk JSON_parse line = None ->
  forLines (line :: rest) st = forLines rest st.
Proof.
  unfold validChunk. intros H. cbn [Streaming.forLines].
  destruct (startsWith "data: " line); [|reflexivity].
  destruct (String.eqb (slice 6 line) "[DONE]"); [reflexivity|].
  now rewrite H.
Qed.

Lemma forLines_skip_between (before after : list string) (line : string)
    (st : State) :
  validChunk JSON_parse line = None ->
  forLines (before ++ line :: after) st = forLines (before ++ after) st.
Proof.
  intros H. rewrite !forLines_append.
  destruct (forLines before st); [now apply forLines_skip | reflexivity].
Qed.

(** The loop returns from the function only with a closed writer. *)
Lemma forLines_disconnected (lines : list string) (st st' : State) :
  forLines lines st = ClientDisconnected st' -> closed (writer st') = true.
Proof.
  revert st. induction lines as [|line lines IH]; intros st; [discriminate|].
  cbn [Streaming.forLines].
  destruct (startsWith "data: " line); [|apply IH].
  destruct (String.eqb (slice 6 line) "[DONE]"); [apply IH|].
  destruct (JSON_parse (slice 6 line)) as [parsed|]; [|apply IH].
  pose proof (write_refused (writer (pushChunk st parsed)) (dataMessage parsed)) as R.
  destruct (write (writer (pushChunk st parsed)) (dataMessage parsed)) as [w written].
  destruct written; [apply IH|].
  intros E. injection E as <-. now apply R.
Qed.

Lemma validChunks_append (l1 l2 : list string) :
  validChunks (l1 ++ l2) = validChunks l1 ++ validChunks l2.
Proof. apply flat_map_app. Qed.

Lemma validChunks_skip (before after : list string) (line : string) :
  validChunk JSON_parse line = None ->
  validChunks (before ++ line :: after) = validChunks before ++ validChunks after.
Proof.
  intros H. rewrite validChunks_append. f_equal.
  unfold Streaming.validChunks. cbn [flat_map]. now rewrite H.
Qed.

(** With a healthy writer every chunk of the lines goes through. *)
Lemma forLines_healthy (lines : list string) :
  forall cs t b w cl,
    healthy w ->
    forLines lines
      {| chunks := cs; ttftMs := t; buffer := b; writer := w; called := cl |}
    = RanThrough
        {| chunks := cs ++ validChunks lines;
           ttftMs := t;
           buffer := b;
           writer :=
             {| response :=
                  {| calls := calls (response w) ++ map forwarded (validChunks lines);
                     faults := [] |};
                closed := false |};
           called := cl ++ map OnChunk (validChunks lines) |}.
Proof.
  induction lines as [|line lines IH]; intros cs t b w cl H.
  - destruct H as [C F]. destruct w as [[k f] c]. cbn in *. subst.
    now rewrite !app_nil_r.
  - destruct (validChunk JSON_parse line) as [c|] eqn:V.
    + assert (E : validChunks (line :: lines) = c :: validChunks lines).
      { unfold Streaming.validChunks. cbn [flat_map]. now rewrite V. }
      rewrite E. clear E.
      unfold validChunk in V. cbn [Streaming.forLines].
      destruct (startsWith "data: " line); [|discriminate].
      destruct (String.eqb (slice 6 line) "[DONE]"); [discriminate|].
      rewrite V. unfold pushChunk. cbn [writer chunks ttftMs buffer called].
      rewrite (write_healthy w (dataMessage c) H).
      unfold withWriter. cbn [writer chunks ttftMs buffer called].
      rewrite IH by (split; reflexivity).
      cbn [response calls map]. now rewrite <- !app_assoc.
    + rewrite (forLines_skip line lines _ V).
      assert (E : validChunks (line :: lines) = validChunks lines).
      { unfold Streaming.validChunks. cbn [flat_map]. now rewrite V. }
      rewrite E. now apply IH.
Qed.

(** *** The end of the function *)

Lemma afterLoop_healthy (cs : list json) (t : option Z) (b : string)
    (w : SSEWriter) (cl : list CallbackCall) :
  healthy w ->
  afterLoop {| chunks := cs; ttftMs := t; buffer := b; writer := w; called := cl |}
  = {| outcome := {| success := true; outChunks := cs ++ restChunks b; outTtftMs := t |};
       finalWriter :=
         {| response :=
              {| calls := calls (response w) ++ map forwarded (restChunks b)
                          ++ [CallWrite doneText false; CallEnd];
                 faults := [] |};
            closed := true |};
       callbackCalls := cl ++ map OnChunk (restChunks b)
                        ++ [OnComplete (cs ++ restChunks b)] |}.
Proof.
  intros H.
  assert (N : close w
              = {| response := {| calls := calls (response w) ++ [CallWrite doneText false; CallEnd];
                                  faults := [] |};
                   closed := true |}) by now apply close_healthy.
  unfold Streaming.afterLoop, Streaming.restChunks, Streaming.validChunks, validChunk.
  cbn [buffer flat_map].
  destruct (startsWith "data: " b); cbn [andb];
    [destruct (truthy (slice 6 b)); cbn [andb];
     [destruct (String.eqb (slice 6 b) "[DONE]"); cbn [negb];
      [|destruct (JSON_parse (slice 6 b)) as [parsed|]]|]|
     destruct (truthy (slice 6 b))].
  all: try (unfold withCall, withWriter, returning;
            cbn [writer chunks ttftMs buffer called app map];
            rewrite N, !app_nil_r; reflexivity).
  unfold pushChunk, withCall, withWriter, returning.
  cbn [writer chunks ttftMs buffer called app map].
  rewrite (write_healthy w (dataMessage parsed) H). cbn [fst].
  rewrite close_healthy by (split; reflexivity).
  cbn [response calls]. now rewrite <- !app_assoc.
Qed.

Lemma caught_healthy (e : Thrown) (st : State) :
  healthy (writer st) -> endsWithDone (finalWriter (caught e st)).
Proof.
  intros H. unfold Streaming.caught, withCall, withWriter, returning.
  cbn [writer finalWriter].
  rewrite (write_healthy (writer st) _ H). cbn [fst].
  rewrite close_healthy by (split; reflexivity).
  cbn [response calls]. eexists. reflexivity.
Qed.

(** *** The read loop *)

Lemma pop_value_last (l : list string) :
  match pop_value l with Some b => b | None => "" end = last l "".
Proof. destruct l; reflexivity. Qed.

Lemma last_split_isLine (s : string) : isLine (last (split LF s) "").
Proof.
  unfold isLine. induction s as [|c s IH]; [reflexivity|].
  cbn [split]. pose proof (split_not_nil LF s) as N.
  destruct (Ascii.eqb c LF) eqn:C.
  - destruct (split LF s) as [|h t]; [congruence | exact IH].
  - destruct (split LF s) as [|h t]; [congruence|].
    destruct t as [|x t]; [|exact IH].
    cbn [last] in *. cbn [split]. now rewrite C, IH.
Qed.

(** A body that arrives in pieces, with a healthy writer: the state when
    the reads are over is that of the whole text split in lines. *)
Lemma readLoop_undisturbed (startTime : Z) (pieces : list (Z * string)) :
  forall cs t b w cl,
    healthy w -> isLine b ->
    readLoop startTime (reads pieces)
      {| chunks := cs; ttftMs := t; buffer := b; writer := w; called := cl |}
    = afterLoop
        {| chunks :=
             cs ++ validChunks
                     (removelast (split LF (b ++ String.concat "" (map snd pieces))));
           ttftMs := match t with
                     | Some x => Some x
                     | None => firstRead startTime pieces
                     end;
           buffer := last (split LF (b ++ String.concat "" (map snd pieces))) "";
           writer :=
             {| response :=
                  {| calls :=
                       calls (response w)
                       ++ map forwarded
                            (validChunks
                               (removelast
                                  (split LF (b ++ String.concat "" (map snd pieces)))));
                     faults := [] |};
                closed := false |};
           called :=
             cl ++ map OnChunk
                     (validChunks
                        (removelast (split LF (b ++ String.concat "" (map snd pieces))))) |}.
Proof.
  induction pieces as [|[now text] pieces IH]; intros cs t b w cl H B.
  - cbn [reads map Streaming.readLoop String.concat].
    rewrite append_nil_r. unfold isLine in B. rewrite B.
    cbn [removelast last Streaming.validChunks flat_map map].
    destruct H as [C F]. destruct w as [[k f] c]. cbn in C, F. subst.
    cbn [response calls]. destruct t; now rewrite !app_nil_r.
  - cbn [reads map Streaming.readLoop fst snd chunks ttftMs buffer writer called].
    fold (reads pieces). rewrite pop_value_last. unfold pop_rest.
    rewrite (forLines_healthy _ _ _ _ _ _ H).
    rewrite IH by (try split; try reflexivity; apply last_split_isLine).
    rewrite concat_cons, <- append_assoc.
    rewrite (split_append LF (b ++ text) (String.concat "" (map snd pieces))).
    pose proof (split_not_nil LF
                  (last (split LF (b ++ text)) "" ++ String.concat "" (map snd pieces))) as N.
    rewrite (removelast_append _ _ _ N), (last_append _ _ _ _ N).
    rewrite validChunks_append, !map_app.
    cbn [response calls firstRead fst].
    rewrite <- !app_assoc.
    destruct t; reflexivity.
Qed.

(** An undisturbed run: the upstream answers with a body that arrives in
    [pieces] without a failure, the client stays, the response takes every
    write.  The relay then does what one pass over the whole text would. *)
Lemma undisturbed_run (startTime : Z) (st : float) (pieces : list (Z * string))
    (lines : list string) (rest : string) (w : SSEWriter) :
  healthy w ->
  String.concat "" (map snd pieces) = bodyText lines rest ->
  Forall isLine lines -> isLine rest ->
  relay startTime
    (FetchReturns {| ok := true; status := st; body := Some (reads pieces) |}) w
  = {| outcome :=
         {| success := true;
            outChunks := validChunks lines ++ restChunks rest;
            outTtftMs := firstRead startTime pieces |};
       finalWriter :=
         {| response :=
              {| calls :=
                   calls (response w)
                   ++ map forwarded (validChunks lines ++ restChunks rest)
                   ++ [CallWrite doneText false; CallEnd];
                 faults := [] |};
            closed := true |};
       callbackCalls :=
         map OnChunk (validChunks lines ++ restChunks rest)
         ++ [OnComplete (validChunks lines ++ restChunks rest)] |}.
Proof.
  intros H E L R.
  unfold Streaming.streamProviderResponse, initialState. cbn [ok body negb].
  rewrite (readLoop_undisturbed startTime pieces [] None "" w [] H eq_refl).
  cbn [append app]. rewrite E, (split_bodyText lines rest L R).
  rewrite removelast_last, last_last.
  rewrite afterLoop_healthy by (split; reflexivity).
  cbn [response calls app]. rewrite !map_app, <- !app_assoc. reflexivity.
Qed.

(** *** The writer when the function returns *)

Lemma afterLoop_closed (st : State) : closed (finalWriter (afterLoop st)) = true.
Proof. unfold Streaming.afterLoop, returning, withWriter. cbn. apply close_closed. Qed.

Lemma caught_closed (e : Thrown) (st : State) :
  closed (finalWriter (caught e st)) = true.
Proof. unfold Streaming.caught, returning, withWriter. cbn. apply close_closed. Qed.

Lemma readLoop_closed (startTime : Z) (upstream : list UpstreamEvent) :
  forall st, closed (finalWriter (readLoop startTime upstream st)) = true.
Proof.
  induction upstream as [|[now text|e|] later IH]; intros st;
    cbn [Streaming.readLoop].
  - apply afterLoop_closed.
  - match goal with
    | |- context [forLines ?l ?s] => destruct (forLines l s) as [st2|st2] eqn:F
    end.
    + apply IH.
    + apply (forLines_disconnected _ _ _ F).
  - apply caught_closed.
  - apply IH.
Qed.

Lemma readLoop_ends_with_done (startTime : Z) (upstream : list UpstreamEvent) :
  forall st,
    healthy (writer st) -> ~ In ClientClosed upstream ->
    endsWithDone (finalWriter (readLoop startTime upstream st)).
Proof.
  induction upstream as [|[now text|e|] later IH]; intros [cs t b w cl] H N;
    cbn [Streaming.readLoop writer] in *.
  - rewrite (afterLoop_healthy _ _ _ _ _ H). cbn [finalWriter response calls].
    exists (calls (response w) ++ map forwarded (restChunks b)).
    now rewrite <- app_assoc.
  - cbn [chunks ttftMs buffer called].
    rewrite (forLines_healthy _ _ _ _ _ _ H).
    apply IH; [split; reflexivity|].
    intros I. apply N. now right.
  - now apply caught_healthy.
  - exfalso. apply N. now left.
Qed.

(** *** A writer that is closed already *)

Lemma forLines_closed_writer (lines : list string) :
  forall st,
    closed (writer st) = true ->
    match forLines lines st with
    | RanThrough st' | ClientDisconnected st' => writer st' = writer st
    end.
Proof.
  induction lines as [|line lines IH]; intros st C; [reflexivity|].
  cbn [Streaming.forLines].
  destruct (startsWith "data: " line); [|now apply IH].
  destruct (String.eqb (slice 6 line) "[DONE]"); [now apply IH|].
  destruct (JSON_parse (slice 6 line)) as [parsed|]; [|now apply IH].
  change (writer (pushChunk st parsed)) with (writer st).
  rewrite (write_closed _ _ C). reflexivity.
Qed.

Lemma afterLoop_closed_writer (st : State) :
  closed (writer st) = true -> finalWriter (afterLoop st) = writer st.
Proof.
  intros C. unfold Streaming.afterLoop. cbv zeta.
  set (st1 := if startsWith "data: " (buffer st) then _ else st).
  assert (W : writer st1 = writer st).
  { subst st1.
    destruct (startsWith "data: " (buffer st)); [|reflexivity].
    destruct (truthy (slice 6 (buffer st)) && negb (String.eqb (slice 6 (buffer st)) "[DONE]"));
      [|reflexivity].
    destruct (JSON_parse (slice 6 (buffer st))) as [parsed|]; [|reflexivity].
    change (writer (pushChunk st parsed)) with (writer st).
    now rewrite (write_closed _ _ C). }
  unfold returning, withWriter, withCall. cbn [finalWriter writer].
  rewrite W. now apply close_of_closed.
Qed.

Lemma caught_closed_writer (e : Thrown) (st : State) :
  closed (writer st) = true -> finalWriter (caught e st) = writer st.
Proof.
  intros C. unfold Streaming.caught, returning, withWriter, withCall.
  cbn [finalWriter writer]. rewrite (write_closed _ _ C). cbn [fst].
  now apply close_of_closed.
Qed.

Lemma onResponseClose_closed (w : SSEWriter) :
  closed w = true -> onResponseClose w = w.
Proof. destruct w as [r c]. cbn. now intros ->. Qed.

(** Nothing reaches the response of a writer that is closed already. *)
Lemma readLoop_closed_writer (startTime : Z) (upstream : list UpstreamEvent) :
  forall st,
    closed (writer st) = true ->
    finalWriter (readLoop startTime upstream st) = writer st.
Proof.
  induction upstream as [|[now text|e|] later IH]; intros st C;
    cbn [Streaming.readLoop].
  - now apply afterLoop_closed_writer.
  - match goal with
    | |- context [forLines ?l ?s] =>
        pose proof (forLines_closed_writer l s C) as F;
        destruct (forLines l s) as [st2|st2]
    end; cbn [writer] in F.
    + rewrite IH; [exact F | now rewrite F].
    + exact F.
  - now apply caught_closed_writer.
  - rewrite IH; cbn [withWriter writer]; rewrite (onResponseClose_closed _ C);
      [reflexivity | exact C].
Qed.

(** C1, as the code has it.  Whatever happens, the writer is closed when
    the function returns.  When the writer was open at the call, the client
    stays and the response takes every write, then on every return (the
    upstream refused, no body, an error thrown, the body read to its end)
    the stream ends with the [DONE] message and the end of the response.
    When the writer was closed already, nothing reaches the response on any
    return, the [DONE] message no more than anything else. *)
Theorem relay_leaves_sink_closed (startTime : Z) (fetched : Fetch)
    (w : SSEWriter) :
  closed (finalWriter (relay startTime fetched w)) = true
  /\ (healthy w -> clientStays fetched ->
      endsWithDone (finalWriter (relay startTime fetched w)))
  /\ (closed w = true -> finalWriter (relay startTime fetched w) = w).
Proof.
  unfold Streaming.streamProviderResponse. split; [|split].
  - destruct fetched as [e|[o s [upstream|]]]; cbn [ok status body].
    + apply caught_closed.
    + destruct o; cbn [negb]; [apply readLoop_closed | apply close_closed].
    + destruct o; cbn [negb]; apply close_closed.
  - intros H S.
    destruct fetched as [e|[o s bd]]; cbn [ok status body clientStays] in *.
    + now apply caught_healthy.
    + destruct o; cbn [negb].
      * destruct bd as [upstream|].
        -- now apply readLoop_ends_with_done.
        -- unfold withCall, withWriter, returning, initialState.
           cbn [writer finalWriter].
           rewrite (close_healthy w H). cbn [response calls].
           eexists. reflexivity.
      * unfold withCall, withWriter, returning, initialState.
        cbn [writer finalWriter].
        rewrite (write_healthy w _ H). cbn [fst].
        rewrite close_healthy by (split; reflexivity).
        cbn [response calls]. eexists. reflexivity.
  - intros C.
    destruct fetched as [e|[o s bd]]; cbn [ok status body].
    + now apply (caught_closed_writer e (initialState w)).
    + destruct o; cbn [negb].
      * destruct bd as [upstream|].
        -- now apply (readLoop_closed_writer startTime upstream (initialState w)).
        -- unfold withCall, withWriter, returning, initialState.
           cbn [writer finalWriter]. now apply close_of_closed.
      * unfold withCall, withWriter, returning, initialState.
        cbn [writer finalWriter].
        rewrite (write_closed _ _ C). cbn [fst]. now apply close_of_closed.
Qed.

(** *** A write refused inside the read loop *)

(** When the write of a chunk is refused, the loop returns with that chunk
    as the last one collected and goes through no further line. *)
Lemma forLines_refused (before after : list string) (line : string)
    (st st1 : State) (parsed : json) :
  forLines before st = RanThrough st1 ->
  validChunk JSON_parse line = Some parsed ->
  snd (write (writer st1) (dataMessage parsed)) = false ->
  forLines (before ++ line :: after) st
  = ClientDisconnected
      {| chunks := chunks st1 ++ [parsed];
         ttftMs := ttftMs st1;
         buffer := buffer st1;
         writer := fst (write (writer st1) (dataMessage parsed));
         called := called st1 ++ [OnChunk parsed] |}.
Proof.
  intros B V R. rewrite forLines_append, B.
  unfold validChunk in V. cbn [Streaming.forLines].
  destruct (startsWith "data: " line); [|discriminate].
  destruct (String.eqb (slice 6 line) "[DONE]"); [discriminate|].
  rewrite V.
  change (writer (pushChunk st1 parsed)) with (writer st1).
  destruct (write (writer st1) (dataMessage parsed)) as [w' written].
  cbn [snd fst] in *. subst written. reflexivity.
Qed.

(** The function then returns at once: the reads still to come are not
    looked at. *)
Lemma readLoop_refused (startTime now : Z) (text : string)
    (later later' : list UpstreamEvent) (st : State) :
  (exists st2,
     forLines (pop_rest (split LF (buffer st ++ text)))
       {| chunks := chunks st;
          ttftMs := match ttftMs st with
                    | None => Some (now - startTime)%Z
                    | Some t => Some t
                    end;
          buffer := match pop_value (split LF (buffer st ++ text)) with
                    | Some b => b
                    | None => ""
                    end;
          writer := writer st; called := called st |}
     = ClientDisconnected st2) ->
  readLoop startTime (Value now text :: later) st
  = readLoop startTime (Value now text :: later') st
  /\ success (outcome (readLoop startTime (Value now text :: later) st)) = false.
Proof.
  intros [st2 F]. cbn [Streaming.readLoop]. rewrite F. split; reflexivity.
Qed.

(** *** Lines that stand for no chunk *)

Lemma validChunk_done : validChunk JSON_parse (dataLine "[DONE]") = None.
Proof. reflexivity. Qed.

Lemma validChunk_malformed (bad : string) :
  JSON_parse bad = None -> validChunk JSON_parse (dataLine bad) = None.
Proof.
  intros H. unfold validChunk, dataLine. cbn [append startsWith Ascii.eqb].
  cbn. rewrite H. now destruct (String.eqb bad "[DONE]").
Qed.

Lemma no_error_reported (cs done : list json) (message : string) :
  ~ In (OnError message) (map OnChunk cs ++ [OnComplete done]).
Proof.
  intros I. apply in_app_or in I. destruct I as [I|[I|[]]]; [|discriminate].
  apply in_map_iff in I. destruct I as [c [E _]]. discriminate.
Qed.

(** An undisturbed run over a body one of whose complete lines stands for
    no chunk. *)
Lemma skipped_line_run (startTime : Z) (st : float) (pieces : list (Z * string))
    (before after : list string) (line rest : string) (w : SSEWriter) :
  validChunk JSON_parse line = None ->
  healthy w ->
  Forall isLine (before ++ line :: after) -> isLine rest ->
  String.concat "" (map snd pieces) = bodyText (before ++ line :: after) rest ->
  success (outcome (relay startTime
     (FetchReturns {| ok := true; status := st; body := Some (reads pieces) |}) w))
  = true
  /\ outChunks (outcome (relay startTime
       (FetchReturns {| ok := true; status := st; body := Some (reads pieces) |}) w))
     = validChunks before ++ validChunks after ++ restChunks rest
  /\ calls (response (finalWriter (relay startTime
       (FetchReturns {| ok := true; status := st; body := Some (reads pieces) |}) w)))
     = calls (response w)
       ++ map forwarded (validChunks before ++ validChunks after ++ restChunks rest)
       ++ [CallWrite doneText false; CallEnd]
  /\ forall message,
       ~ In (OnError message) (callbackCalls (relay startTime
           (FetchReturns {| ok := true; status := st; body := Some (reads pieces) |}) w)).
Proof.
  intros V H L R E.
  rewrite (undisturbed_run startTime st pieces _ rest w H E L R).
  cbn [outcome success outChunks finalWriter response calls callbackCalls].
  rewrite (validChunks_skip before after line V), <- !app_assoc.
  repeat split. intros message. apply no_error_reported.
Qed.

(** C8. A [data: ] line whose payload is not valid JSON is passed over:
    whatever the state of the relay, the loop over the lines goes on as if
    the line were not there; and in an undisturbed run the function
    succeeds, reports no error, and returns and forwards the valid chunks of
    the lines before and after it, in their order. *)
Theorem malformed_line_is_skipped (startTime : Z) (st : float)
    (pieces : list (Z * string)) (before after : list string)
    (bad rest : string) (w : SSEWriter) :
  JSON_parse bad = None ->
  (forall s, forLines (before ++ dataLine bad :: after) s = forLines (before ++ after) s)
  /\ (healthy w ->
      Forall isLine (before ++ dataLine bad :: after) -> isLine rest ->
      String.concat "" (map snd pieces) = bodyText (before ++ dataLine bad :: after) rest ->
      success (outcome (relay startTime
         (FetchReturns {| ok := true; status := st; body := Some (reads pieces) |}) w))
      = true
      /\ outChunks (outcome (relay startTime
           (FetchReturns {| ok := true; status := st; body := Some (reads pieces) |}) w))
         = validChunks before ++ validChunks after ++ restChunks rest
      /\ calls (response (finalWriter (relay startTime
           (FetchReturns {| ok := true; status := st; body := Some (reads pieces) |}) w)))
         = calls (response w)
           ++ map forwarded (validChunks before ++ validChunks after ++ restChunks rest)
           ++ [CallWrite doneText false; CallEnd]
      /\ forall message,
           ~ In (OnError message) (callbackCalls (relay startTime
               (FetchReturns {| ok := true; status := st; body := Some (reads pieces) |}) w))).
Proof.
  intros P. pose proof (validChunk_malformed bad P) as V. split.
  - intros s. apply (forLines_skip_between before after (dataLine bad) s V).
  - intros H L R E.
    apply (skipped_line_run startTime st pieces before after (dataLine bad) rest w V H L R E).
Qed.

(** C10. A [data: [DONE]] line in the middle of the body does not end the
    relay: the loop over the lines passes over it, and in an undisturbed
    run the valid chunks of the lines after it are returned and forwarded
    like those before it. *)
Theorem done_line_does_not_end_the_relay (startTime : Z) (st : float)
    (pieces : list (Z * string)) (before after : list string)
    (rest : string) (w : SSEWriter) :
  (forall s,
     forLines (before ++ dataLine "[DONE]" :: after) s = forLines (before ++ after) s)
  /\ (healthy w ->
      Forall isLine (before ++ dataLine "[DONE]" :: after) -> isLine rest ->
      String.concat "" (map snd pieces)
      = bodyText (before ++ dataLine "[DONE]" :: after) rest ->
      success (outcome (relay startTime
         (FetchReturns {| ok := true; status := st; body := Some (reads pieces) |}) w))
      = true
      /\ outChunks (outcome (relay startTime
           (FetchReturns {| ok := true; status := st; body := Some (reads pieces) |}) w))
         = validChunks before ++ validChunks after ++ restChunks rest
      /\ calls (response (finalWriter (relay startTime
           (FetchReturns {| ok := true; status := st; body := Some (reads pieces) |}) w)))
         = calls (response w)
           ++ map forwarded (validChunks before ++ validChunks after ++ restChunks rest)
           ++ [CallWrite doneText false; CallEnd]).
Proof.
  split.
  - intros s.
    apply (forLines_skip_between before after (dataLine "[DONE]") s validChunk_done).
  - intros H L R E.
    destruct (skipped_line_run startTime st pieces before after _ rest w
                validChunk_done H L R E) as [A [B [C _]]].
    now repeat split.
Qed.

End Host.

(** One [DONE] message on a fresh writer, after one call and after two. *)
Lemma close_idempotent_witness :
  closed (close demoStringify demoNumber openWriter) = true
  /\ exists threw,
       calls (response (close demoStringify demoNumber openWriter))
       = calls (response openWriter) ++ [CallWrite doneText threw; CallEnd].
Proof.
  apply (proj1 (close_idempotent demoStringify demoNumber openWriter)).
  reflexivity.
Defined.

(** *** Scenarios *)

Example two_chunks_then_end :
  demoRelay [Value 105 ("data: 1" ++ nl); Value 190 ("data: 2" ++ nl)] openWriter
  = {| outcome := {| success := true; outChunks := [JNum 1; JNum 2];
                     outTtftMs := Some 5%Z |};
       finalWriter :=
         {| response :=
              {| calls := [CallWriteHead 200;
                           CallWrite ("data: 1" ++ nl ++ nl) false;
                           CallWrite ("data: 2" ++ nl ++ nl) false;
                           CallWrite doneText false; CallEnd];
                 faults := [] |};
            closed := true |};
       callbackCalls := [OnChunk (JNum 1); OnChunk (JNum 2);
                         OnComplete [JNum 1; JNum 2]] |}.
Proof. reflexivity. Qed.

Example upstream_refuses :
  finalWriter
    (streamProviderResponse demoParse demoStringify demoNumber 100
       (FetchReturns {| ok := false; status := 500; body := None |}) openWriter)
  = {| response :=
         {| calls := [CallWriteHead 200;
                      CallWrite
                        ("event: error" ++ nl ++ "data: "
                         ++ demoStringify
                              (JObj [("error",
                                      JObj [("message", JStr "Provider returned 500");
                                            ("status", JNum 500)])])
                         ++ nl ++ nl) false;
                      CallWrite doneText false; CallEnd];
            faults := [] |};
       closed := true |}.
Proof. reflexivity. Qed.

Example write_on_closed_writer :
  write demoStringify demoNumber (onResponseClose openWriter) (dataMessage (JNum 1))
  = (onResponseClose openWriter, false).
Proof. reflexivity. Qed.

Example aggregate_reads_model_and_usage :
  aggregateStreamingResponse
    [deltaChunk "Hel";
     JObj [("model", JStr "m");
           ("choices", JArr [JObj [("delta", JObj [("content", JStr "lo")]);
                                   ("finish_reason", JStr "stop")]]);
           ("usage", JObj [("prompt_tokens", JNum 1); ("completion_tokens", JNum 2)])]]
  = Some {| content := "Hello";
            usage := Some {| prompt_tokens := 1; completion_tokens := 2;
                             total_tokens := JNum 3 |};
            model := Some "m"; finish_reason := Some "stop" |}.
Proof. reflexivity. Qed.

(** An upstream that fails after one chunk: the error event, then [DONE]. *)
Lemma relay_leaves_sink_closed_witness :
  endsWithDone
    (finalWriter
       (demoRelay [Value 105 ("data: 1" ++ nl); Throws (ThrownError "reset")]
          openWriter)).
Proof.
  apply (proj1 (proj2 (relay_leaves_sink_closed demoParse demoStringify demoNumber 100
                  (FetchReturns
                     {| ok := true; status := 200;
                        body := Some [Value 105 ("data: 1" ++ nl);
                                      Throws (ThrownError "reset")] |})
                  openWriter))).
  - split; reflexivity.
  - cbn. intros [H|[H|[]]]; discriminate.
Defined.

(** C1, as stated, fails: on the return taken when the write is refused,
    nothing more reaches the response, neither the [DONE] message nor its
    end. *)
Lemma disconnect_return_sends_no_done :
  success (outcome refusedInLoopRun) = false
  /\ outChunks (outcome refusedInLoopRun) = [JNum 1]
  /\ closed (finalWriter refusedInLoopRun) = true
  /\ calls (response (finalWriter refusedInLoopRun)) = [CallWriteHead 200]
  /\ ~ endsWithDone (finalWriter refusedInLoopRun).
Proof.
  repeat (split; [reflexivity|]).
  intros [before E]. change (calls (response (finalWriter refusedInLoopRun)))
    with [CallWriteHead 200] in E.
  apply (f_equal (@List.length _)) in E. rewrite length_app in E.
  cbn in E. lia.
Qed.

(** C4 at the failing input: the chunk of the last line, which ends without
    a line feed, is written after the read loop; the write is refused, and
    the function still reports success. *)
Lemma refused_write_after_loop_reports_success :
  snd (write demoStringify demoNumber (onResponseClose openWriter)
         (dataMessage (JNum 1))) = false
  /\ outcome refusedAfterLoopRun
     = {| success := true; outChunks := [JNum 1]; outTtftMs := Some 5%Z |}
  /\ calls (response (finalWriter refusedAfterLoopRun)) = [CallWriteHead 200].
Proof. repeat split. Qed.

(** The same chunk on a complete line: the write is refused inside the read
    loop and the function reports failure. *)
Lemma refused_write_in_loop_reports_failure :
  outcome refusedInLoopRun
  = {| success := false; outChunks := [JNum 1]; outTtftMs := Some 5%Z |}.
Proof. reflexivity. Qed.

(** A malformed line between two valid ones, the body cut inside it. *)
Lemma malformed_line_is_skipped_witness :
  outChunks
    (outcome
       (demoRelay
          (reads [(105%Z, ("data: 1" ++ nl ++ "data: {b")%string);
                  (110%Z, ("ad" ++ nl ++ "data: 2" ++ nl)%string)])
          openWriter))
  = [JNum 1; JNum 2].
Proof.
  apply (proj1 (proj2 (proj2
    (malformed_line_is_skipped demoParse demoStringify demoNumber 100 200
       [(105%Z, ("data: 1" ++ nl ++ "data: {b")%string);
        (110%Z, ("ad" ++ nl ++ "data: 2" ++ nl)%string)]
       ["data: 1"] ["data: 2"] "{bad" "" openWriter eq_refl)
    (conj eq_refl eq_refl)
    ltac:(repeat constructor)
    eq_refl eq_refl))).
Defined.

(** A [DONE] line between two valid ones. *)
Lemma done_line_does_not_end_the_relay_witness :
  outChunks
    (outcome
       (demoRelay
          (reads [(105%Z, ("data: 1" ++ nl ++ "data: [DONE]" ++ nl ++ "data: 2" ++ nl)%string)])
          openWriter))
  = [JNum 1; JNum 2].
Proof.
  apply (proj1 (proj2 (proj2
    (done_line_does_not_end_the_relay demoParse demoStringify demoNumber 100 200
       [(105%Z, ("data: 1" ++ nl ++ "data: [DONE]" ++ nl ++ "data: 2" ++ nl)%string)]
       ["data: 1"] ["data: 2"] "" openWriter)
    (conj eq_refl eq_refl)
    ltac:(repeat constructor)
    eq_refl eq_refl))).
Defined.

(** *** aggregateStreamingResponse *)

Lemma aggregateChunk_delta (acc : Aggregate) (fragment : string) :
  aggregateChunk acc (deltaChunk fragment)
  = Some {| content := content acc ++ fragment; usage := usage acc;
            model := model acc; finish_reason := finish_reason acc |}.
Proof. reflexivity. Qed.

Lemma aggregateFrom_deltas (fragments : list string) :
  forall acc,
    aggregateFrom acc (map deltaChunk fragments)
    = Some {| content := content acc ++ String.concat "" fragments;
              usage := usage acc; model := model acc;
              finish_reason := finish_reason acc |}.
Proof.
  induction fragments as [|f fragments IH]; intros acc.
  - cbn. rewrite append_nil_r. now destruct acc.
  - cbn [map aggregateFrom]. rewrite aggregateChunk_delta, IH.
    cbn [content usage model finish_reason].
    now rewrite concat_cons, append_assoc.
Qed.

(** C3. However a string [S] is cut into fragments, the chunks that carry
    the fragments in order aggregate to the content [S]. *)
Theorem fragments_are_reassembled (S : string) (fragments : list string) :
  String.concat "" fragments = S ->
  aggregateStreamingResponse (map deltaChunk fragments)
  = Some {| content := S; usage := None; model := None; finish_reason := None |}.
Proof.
  intros E. unfold aggregateStreamingResponse.
  rewrite aggregateFrom_deltas. cbn [content usage model finish_reason append].
  now rewrite E.
Qed.

(** One string cut in two ways. *)
Lemma fragments_are_reassembled_witness :
  aggregateStreamingResponse (map deltaChunk ["Hel"; "lo, "; ""; "world"])
  = Some {| content := "Hello, world"; usage := None; model := None;
            finish_reason := None |}
  /\ aggregateStreamingResponse (map deltaChunk ["Hello"; ", world"])
     = Some {| content := "Hello, world"; usage := None; model := None;
               finish_reason := None |}.
Proof.
  split.
  - apply (fragments_are_reassembled "Hello, world" ["Hel"; "lo, "; ""; "world"]).
    reflexivity.
  - apply (fragments_are_reassembled "Hello, world" ["Hello"; ", world"]).
    reflexivity.
Defined.

(** *** A writer under any sequence of calls *)

Lemma comment_closed (w : SSEWriter) (text : string) :
  closed w = true -> comment w text = (w, false).
Proof. intros H. unfold comment. now rewrite H. Qed.

Lemma split_at_only_occurrence (A : Type) (x : A) (l a b : list A) :
  ~ In x l -> l ++ [x] = a ++ x :: b -> a = l /\ b = [].
Proof.
  revert a. induction l as [|y l IH]; intros a N E.
  - destruct a as [|z a]; cbn in E.
    + injection E as <-. now split.
    + injection E as _ E. destruct a; discriminate.
  - destruct a as [|z a]; cbn in E.
    + injection E as E _. subst y. elim N. now left.
    + injection E as <- E.
      destruct (IH a (fun I => N (or_intror I)) E) as [-> ->]. now split.
Qed.

Section Calls.

Variable JSON_stringify : json -> string.
Variable Number_toString : float -> string.

Local Abbreviation write := (write JSON_stringify Number_toString).
Local Abbreviation close := (close JSON_stringify Number_toString).
Local Abbreviation perform := (perform JSON_stringify Number_toString).
Local Abbreviation performAll := (performAll JSON_stringify Number_toString).
Local Abbreviation keepAliveRun := (keepAliveRun JSON_stringify Number_toString).

Lemma perform_closed (w : SSEWriter) (c : WriterCall) :
  closed w = true ->
  fst (perform w c) = w /\ snd (perform w c) <> Some true.
Proof.
  intros H. destruct c as [m|v|t| |]; unfold Streaming.perform, writeData.
  - rewrite (write_closed JSON_stringify Number_toString w m H). now split.
  - rewrite (write_closed JSON_stringify Number_toString w _ H). now split.
  - rewrite (comment_closed w t H). now split.
  - rewrite (close_of_closed JSON_stringify Number_toString w H). now split.
  - rewrite (onResponseClose_closed w H). now split.
Qed.

Lemma performAll_closed (w : SSEWriter) (cs : list WriterCall) :
  closed w = true -> performAll cs w = w.
Proof.
  intros H. unfold Streaming.performAll.
  induction cs as [|c cs IH]; [reflexivity|].
  cbn [fold_left]. now rewrite (proj1 (perform_closed w c H)).
Qed.

(** X7. The closed state is final: on a closed writer every call ([write],
    [writeData], [comment], [close], the close event) leaves the writer and
    its response as they are, none returns [true], and so does any sequence
    of calls. *)
Theorem closed_is_final (w : SSEWriter) (cs : list WriterCall) :
  closed w = true ->
  performAll cs w = w
  /\ forall c, fst (perform w c) = w /\ snd (perform w c) <> Some true.
Proof.
  intros H. split; [now apply performAll_closed|].
  intros c. now apply perform_closed.
Qed.

Lemma perform_keeps_end_last (w : SSEWriter) (c : WriterCall) :
  (~ In CallEnd (calls (response w))
   \/ (closed w = true
       /\ exists a threw,
            calls (response w) = a ++ [CallWrite doneText threw; CallEnd]
            /\ ~ In CallEnd a)) ->
  (~ In CallEnd (calls (response (fst (perform w c))))
   \/ (closed (fst (perform w c)) = true
       /\ exists a threw,
            calls (response (fst (perform w c)))
            = a ++ [CallWrite doneText threw; CallEnd]
            /\ ~ In CallEnd a)).
Proof.
  intros I. case_eq (closed w); intros C.
  - now rewrite (proj1 (perform_closed w c C)).
  - destruct I as [N|[X _]]; [|congruence].
    assert (W : forall payload,
               ~ In CallEnd (calls (fst (response_write (response w) payload)))).
    { intros payload. unfold response_write.
      destruct (faults (response w)) as [|[|] later]; cbn [fst calls];
        intros I; apply in_app_or in I;
        (destruct I as [I|[I|[]]]; [now apply N | discriminate]). }
    destruct c as [m|v|t| |]; unfold Streaming.perform, writeData,
      Streaming.write, comment, Streaming.close, Streaming.write; rewrite ?C.
    + left. specialize (W (wireText JSON_stringify Number_toString m)).
      destruct (response_write (response w) _) as [r [|]]; exact W.
    + left. specialize (W (wireText JSON_stringify Number_toString (dataMessage v))).
      destruct (response_write (response w) _) as [r [|]]; exact W.
    + left. specialize (W (": " ++ t ++ nl ++ nl)%string).
      destruct (response_write (response w) _) as [r [|]]; exact W.
    + right. split; [now destruct (response_write (response w) _) as [r [|]]|].
      exists (calls (response w)).
      unfold response_write.
      destruct (faults (response w)) as [|[|] later]; cbn;
        eexists; (split; [rewrite <- app_assoc; reflexivity | exact N]).
    + left. exact N.
Qed.

Lemma performAll_keeps_end_last (cs : list WriterCall) :
  forall w,
    (~ In CallEnd (calls (response w))
     \/ (closed w = true
         /\ exists a threw,
              calls (response w) = a ++ [CallWrite doneText threw; CallEnd]
              /\ ~ In CallEnd a)) ->
    (~ In CallEnd (calls (response (performAll cs w)))
     \/ (closed (performAll cs w) = true
         /\ exists a threw,
              calls (response (performAll cs w))
              = a ++ [CallWrite doneText threw; CallEnd]
              /\ ~ In CallEnd a)).
Proof.
  unfold Streaming.performAll.
  induction cs as [|c cs IH]; intros w I; [exact I|].
  cbn [fold_left]. apply IH. now apply perform_keeps_end_last.
Qed.

(** X8. [end()] is called on the response at most once, by [close()], right
    after the write of the [DONE] message, and no call follows it: whatever
    sequence of calls a writer goes through, a call of [end()] in the record
    of its response is the last call, and the writer is closed. *)
Theorem end_is_the_last_call (r : ServerResponse) (cs : list WriterCall)
    (a b : list TransportCall) :
  ~ In CallEnd (calls r) ->
  calls (response (performAll cs (createSSEWriter r))) = a ++ CallEnd :: b ->
  b = []
  /\ ~ In CallEnd a
  /\ (exists a' threw, a = a' ++ [CallWrite doneText threw])
  /\ closed (performAll cs (createSSEWriter r)) = true.
Proof.
  intros N E.
  assert (I : ~ In CallEnd (calls (response (performAll cs (createSSEWriter r))))
              \/ (closed (performAll cs (createSSEWriter r)) = true
                  /\ exists a0 threw,
                       calls (response (performAll cs (createSSEWriter r)))
                       = a0 ++ [CallWrite doneText threw; CallEnd]
                       /\ ~ In CallEnd a0)).
  { apply performAll_keeps_end_last.
    left. cbn. intros X. apply in_app_or in X.
    destruct X as [X|[X|[]]]; [now apply N | discriminate]. }
  destruct I as [I|[C [a0 [threw [E0 N0]]]]].
  - elim I. rewrite E. apply in_or_app. right. now left.
  - rewrite E0 in E.
    assert (N1 : ~ In CallEnd (a0 ++ [CallWrite doneText threw])).
    { intros X. apply in_app_or in X.
      destruct X as [X|[X|[]]]; [now apply N0 | discriminate]. }
    change (a0 ++ [CallWrite doneText threw; CallEnd])
      with (a0 ++ [CallWrite doneText threw] ++ [CallEnd]) in E.
    rewrite app_assoc in E.
    destruct (split_at_only_occurrence _ _ _ _ _ N1 E) as [-> ->].
    repeat split; [exact N1 | now exists a0, threw | exact C].
Qed.

(** *** startKeepAlive *)

Lemma keepAliveRun_cleared (events : list KeepAliveEvent) (w : SSEWriter) :
  keepAliveRun events (false, w) = (false, performAll (meanwhile events) w).
Proof.
  unfold Streaming.keepAliveRun, Streaming.performAll.
  revert w. induction events as [|e events IH]; intros w; [reflexivity|].
  cbn [fold_left]. destruct e as [| |c]; cbn [keepAliveStep tick cancelKeepAlive
    fst snd meanwhile flat_map app]; apply IH.
Qed.

Lemma ticks_healthy (n : nat) (w : SSEWriter) :
  healthy w ->
  keepAliveRun (repeat Tick n) (true, w)
  = (true,
     {| response := {| calls := calls (response w) ++ repeat (CallWrite pingText false) n;
                       faults := [] |};
        closed := false |}).
Proof.
  unfold Streaming.keepAliveRun. revert w.
  induction n as [|n IH]; intros w [C F].
  - destruct w as [[k f] c]. cbn in *. subst. now rewrite app_nil_r.
  - cbn [repeat fold_left keepAliveStep fst snd].
    unfold tick, isOpen, comment, response_write. rewrite C, F. cbn [negb fst].
    rewrite IH by (split; reflexivity).
    cbn [response calls]. now rewrite <- app_assoc.
Qed.

(** X9. The keep-alive writes while the writer is open and stops by itself
    when it is not.  On a writer that takes every write, [n] ticks send [n]
    [ping] comments and leave the timer set.  A tick that finds the writer
    closed clears the timer and leaves the writer alone.  Once the timer is
    cleared, by itself or by the function [startKeepAlive] returned, no
    later tick touches the writer: the writer only sees the calls that
    others make. *)
Theorem keep_alive_stops_with_the_writer (w : SSEWriter) (n : nat)
    (events : list KeepAliveEvent) :
  (healthy w ->
   keepAliveRun (repeat Tick n) (startKeepAlive w)
   = (true,
      {| response := {| calls := calls (response w) ++ repeat (CallWrite pingText false) n;
                        faults := [] |};
         closed := false |}))
  /\ (closed w = true ->
      keepAliveRun (Tick :: events) (startKeepAlive w) = (false, w))
  /\ keepAliveRun (Cancel :: events) (startKeepAlive w)
     = (false, performAll (meanwhile events) w).
Proof.
  split; [|split].
  - apply ticks_healthy.
  - intros C.
    unfold Streaming.keepAliveRun, startKeepAlive.
    cbn [fold_left keepAliveStep fst snd]. unfold tick, isOpen. rewrite C.
    cbn [negb].
    fold (Streaming.keepAliveRun JSON_stringify Number_toString events (false, w)).
    rewrite keepAliveRun_cleared.
    now rewrite (performAll_closed w (meanwhile events) C).
  - unfold Streaming.keepAliveRun, startKeepAlive.
    cbn [fold_left keepAliveStep cancelKeepAlive snd].
    apply keepAliveRun_cleared.
Qed.

End Calls.

(** A closed writer after a write, a comment and a close. *)
Lemma closed_is_final_witness :
  performAll demoStringify demoNumber
    [DoWriteData (JNum 1); DoComment "ping"; DoClose]
    (onResponseClose openWriter)
  = onResponseClose openWriter.
Proof.
  apply (proj1 (closed_is_final demoStringify demoNumber
                  (onResponseClose openWriter)
                  [DoWriteData (JNum 1); DoComment "ping"; DoClose] eq_refl)).
Defined.

(** A write, a close, then a write and a second close. *)
Lemma end_is_the_last_call_witness :
  closed
    (performAll demoStringify demoNumber
       [DoWriteData (JNum 1); DoClose; DoWriteData (JNum 2); DoClose]
       (createSSEWriter {| calls := []; faults := [] |}))
  = true.
Proof.
  apply (proj2 (proj2 (proj2
    (end_is_the_last_call demoStringify demoNumber
       {| calls := []; faults := [] |}
       [DoWriteData (JNum 1); DoClose; DoWriteData (JNum 2); DoClose]
       [CallWriteHead 200; CallWrite ("data: 1" ++ nl ++ nl) false;
        CallWrite doneText false]
       []
       (fun x => x) eq_refl)))).
Defined.

(** Three ticks on an open writer; a tick on a closed one. *)
Lemma keep_alive_stops_with_the_writer_witness :
  keepAliveRun demoStringify demoNumber (repeat Tick 3) (startKeepAlive openWriter)
  = (true,
     {| response :=
          {| calls := [CallWriteHead 200; CallWrite pingText false;
                       CallWrite pingText false; CallWrite pingText false];
             faults := [] |};
        closed := false |})
  /\ keepAliveRun demoStringify demoNumber [Tick; Tick; Meanwhile (DoComment "x")]
       (startKeepAlive (onResponseClose openWriter))
     = (false, onResponseClose openWriter).
Proof.
  split.
  - apply (proj1 (keep_alive_stops_with_the_writer demoStringify demoNumber
                    openWriter 3 [])).
    split; reflexivity.
  - apply (proj1 (proj2 (keep_alive_stops_with_the_writer demoStringify demoNumber
                           (onResponseClose openWriter) 0
                           [Tick; Meanwhile (DoComment "x")]))).
    reflexivity.
Defined.

(** *** More on the relay *)

Section Relay.

Variable JSON_parse : string -> option json.
Variable JSON_stringify : json -> string.
Variable Number_toString : float -> string.

Local Abbreviation write := (write JSON_stringify Number_toString).
Local Abbreviation close := (close JSON_stringify Number_toString).
Local Abbreviation wireText := (wireText JSON_stringify Number_toString).
Local Abbreviation forLines := (forLines JSON_parse JSON_stringify Number_toString).
Local Abbreviation afterLoop := (afterLoop JSON_parse JSON_stringify Number_toString).
Local Abbreviation caught := (caught JSON_stringify Number_toString).
Local Abbreviation readLoop := (readLoop JSON_parse JSON_stringify Number_toString).
Local Abbreviation relay :=
  (streamProviderResponse JSON_parse JSON_stringify Number_toString).
Local Abbreviation forwarded := (forwarded JSON_stringify Number_toString).
Local Abbreviation validChunks := (validChunks JSON_parse).
Local Abbreviation restChunks := (restChunks JSON_parse).

(** What the loop over the lines keeps and what it adds, however it ends. *)
Lemma forLines_keeps (lines : list string) :
  forall st,
    match forLines lines st with
    | RanThrough st' | ClientDisconnected st' =>
        ttftMs st' = ttftMs st
        /\ buffer st' = buffer st
        /\ exists new,
             chunks st' = chunks st ++ new
             /\ called st' = called st ++ map OnChunk new
    end.
Proof.
  induction lines as [|line lines IH]; intros st.
  - cbn. repeat split. exists []. now rewrite !app_nil_r.
  - cbn [Streaming.forLines].
    destruct (startsWith "data: " line); [|apply IH].
    destruct (String.eqb (slice 6 line) "[DONE]"); [apply IH|].
    destruct (JSON_parse (slice 6 line)) as [parsed|]; [|apply IH].
    destruct (write (writer (pushChunk st parsed)) (dataMessage parsed)) as [w written].
    destruct written.
    + specialize (IH (withWriter (pushChunk st parsed) w)).
      destruct (forLines lines (withWriter (pushChunk st parsed) w)) as [st'|st'];
        destruct IH as [T [B [new [E1 E2]]]]; cbn in T, B, E1, E2;
        (repeat split; [exact T | exact B|]);
        exists (parsed :: new); cbn [map]; rewrite E1, E2, <- !app_assoc;
        now split.
    + cbn. repeat split. now exists [parsed].
Qed.

Lemma afterLoop_keeps (st : State) :
  outTtftMs (outcome (afterLoop st)) = ttftMs st
  /\ success (outcome (afterLoop st)) = true
  /\ exists new,
       outChunks (outcome (afterLoop st)) = chunks st ++ new
       /\ List.length new <= 1
       /\ callbackCalls (afterLoop st)
          = called st ++ map OnChunk new
            ++ [OnComplete (outChunks (outcome (afterLoop st)))].
Proof.
  unfold Streaming.afterLoop. cbv zeta.
  destruct (startsWith "data: " (buffer st));
    [destruct (truthy (slice 6 (buffer st)) && negb (String.eqb (slice 6 (buffer st)) "[DONE]"));
     [destruct (JSON_parse (slice 6 (buffer st))) as [parsed|]|]|].
  2-4: cbn; repeat split; exists []; cbn; rewrite !app_nil_r; repeat split; lia.
  cbn. repeat split. exists [parsed]. cbn. rewrite <- !app_assoc.
  repeat split; lia.
Qed.

(** X10. [ttftMs] is taken at the first read that yields text and is never
    overwritten: whatever the upstream does afterwards and whatever happens
    to the client, the outcome carries the time of that read less the start
    time, and nothing when the relay gets to no such read. *)
Theorem ttft_is_taken_at_the_first_read (startTime : Z) (st : float)
    (upstream : list UpstreamEvent) (w : SSEWriter) :
  outTtftMs (outcome (relay startTime
     (FetchReturns {| ok := true; status := st; body := Some upstream |}) w))
  = option_map (fun now => (now - startTime)%Z) (firstValueTime upstream).
Proof.
  unfold Streaming.streamProviderResponse. cbn [ok body negb].
  assert (G : forall s,
             outTtftMs (outcome (readLoop startTime upstream s))
             = match ttftMs s with
               | Some t => Some t
               | None => option_map (fun now => (now - startTime)%Z)
                           (firstValueTime upstream)
               end).
  { induction upstream as [|[now text|e|] later IH]; intros s;
      cbn [Streaming.readLoop firstValueTime option_map].
    - rewrite (proj1 (afterLoop_keeps s)). now destruct (ttftMs s).
    - match goal with
      | |- context [forLines ?l ?x] =>
          pose proof (forLines_keeps l x) as K;
          destruct (forLines l x) as [s2|s2]
      end; destruct K as [T _]; cbn [ttftMs] in T.
      + rewrite IH, T. now destruct (ttftMs s).
      + cbn. rewrite T. now destruct (ttftMs s).
    - cbn. now destruct (ttftMs s).
    - rewrite IH. reflexivity. }
  now rewrite G.
Qed.


(** X12. The relay does not depend on where the body is cut into reads:
    with a client that stays and takes every write, two deliveries of the
    same text whose first reads return at the same time give the same
    outcome, the same calls on the response and the same callbacks. *)
Theorem reads_may_be_cut_anywhere (startTime : Z) (st : float)
    (pieces pieces' : list (Z * string)) (w : SSEWriter) :
  healthy w ->
  String.concat "" (map snd pieces) = String.concat "" (map snd pieces') ->
  firstRead startTime pieces = firstRead startTime pieces' ->
  relay startTime
    (FetchReturns {| ok := true; status := st; body := Some (reads pieces) |}) w
  = relay startTime
      (FetchReturns {| ok := true; status := st; body := Some (reads pieces') |}) w.
Proof.
  intros H E F.
  unfold Streaming.streamProviderResponse, initialState. cbn [ok body negb].
  rewrite (readLoop_undisturbed JSON_parse JSON_stringify Number_toString
             startTime pieces [] None "" w [] H eq_refl).
  rewrite (readLoop_undisturbed JSON_parse JSON_stringify Number_toString
             startTime pieces' [] None "" w [] H eq_refl).
  now rewrite E, F.
Qed.

(** The reads of a body with a healthy writer, then whatever follows. *)
Lemma readLoop_reads_then (startTime : Z) (pieces : list (Z * string))
    (more : list UpstreamEvent) :
  forall cs t b w cl,
    healthy w -> isLine b ->
    readLoop startTime (reads pieces ++ more)
      {| chunks := cs; ttftMs := t; buffer := b; writer := w; called := cl |}
    = readLoop startTime more
        {| chunks :=
             cs ++ validChunks
                     (removelast (split LF (b ++ String.concat "" (map snd pieces))));
           ttftMs := match t with
                     | Some x => Some x
                     | None => firstRead startTime pieces
                     end;
           buffer := last (split LF (b ++ String.concat "" (map snd pieces))) "";
           writer :=
             {| response :=
                  {| calls :=
                       calls (response w)
                       ++ map forwarded
                            (validChunks
                               (removelast
                                  (split LF (b ++ String.concat "" (map snd pieces)))));
                     faults := [] |};
                closed := false |};
           called :=
             cl ++ map OnChunk
                     (validChunks
                        (removelast (split LF (b ++ String.concat "" (map snd pieces))))) |}.
Proof.
  induction pieces as [|[now text] pieces IH]; intros cs t b w cl H B.
  - cbn [reads map app String.concat].
    rewrite append_nil_r. unfold isLine in B. rewrite B.
    cbn [removelast last Streaming.validChunks flat_map map].
    destruct H as [C F]. destruct w as [[k f] c]. cbn in C, F. subst.
    cbn [response calls]. destruct t; now rewrite !app_nil_r.
  - cbn [reads map app Streaming.readLoop fst snd chunks ttftMs buffer writer called].
    fold (reads pieces). rewrite pop_value_last. unfold pop_rest.
    rewrite (forLines_healthy JSON_parse JSON_stringify Number_toString _ _ _ _ _ _ H).
    rewrite IH by (try split; try reflexivity; apply last_split_isLine).
    rewrite concat_cons, <- append_assoc.
    rewrite (split_append LF (b ++ text) (String.concat "" (map snd pieces))).
    pose proof (split_not_nil LF
                  (last (split LF (b ++ text)) "" ++ String.concat "" (map snd pieces))) as N.
    rewrite (removelast_append _ _ _ N), (last_append _ _ _ _ N).
    rewrite (validChunks_append JSON_parse), !map_app.
    cbn [response calls firstRead fst].
    rewrite <- !app_assoc.
    destruct t; reflexivity.
Qed.

(** X13. A read that throws in the middle of the body: the relay fails
    with the chunks of the complete lines read so far and the time of the
    first read; the unfinished rest of the last read is dropped, not parsed;
    the client gets the forwarded chunks, then the error event with the
    message, then [DONE] and the end of the response; [onError] is the last
    callback. *)
Theorem failure_in_the_middle (startTime : Z) (st : float)
    (pieces : list (Z * string)) (lines : list string) (rest : string)
    (e : Thrown) (later : list UpstreamEvent) (w : SSEWriter) :
  healthy w ->
  String.concat "" (map snd pieces) = bodyText lines rest ->
  Forall isLine lines -> isLine rest ->
  relay startTime
    (FetchReturns {| ok := true; status := st;
                     body := Some (reads pieces ++ Throws e :: later) |}) w
  = {| outcome :=
         {| success := false;
            outChunks := validChunks lines;
            outTtftMs := firstRead startTime pieces |};
       finalWriter :=
         {| response :=
              {| calls :=
                   calls (response w)
                   ++ map forwarded (validChunks lines)
                   ++ [CallWrite
                         (wireText
                            (errorEvent
                               [("message",
                                 JStr match e with
                                      | ThrownError m => m
                                      | ThrownOther _ => "Stream error"
                                      end)])) false;
                       CallWrite doneText false; CallEnd];
                 faults := [] |};
            closed := true |};
       callbackCalls :=
         map OnChunk (validChunks lines)
         ++ [OnError match e with
                     | ThrownError m => m
                     | ThrownOther x => x
                     end] |}.
Proof.
  intros H E L R.
  unfold Streaming.streamProviderResponse, initialState. cbn [ok body negb].
  rewrite (readLoop_reads_then startTime pieces (Throws e :: later)
             [] None "" w [] H eq_refl).
  cbn [append app Streaming.readLoop].
  rewrite E, (split_bodyText lines rest L R), removelast_last.
  unfold Streaming.caught, withCall, withWriter, returning.
  cbn [writer chunks ttftMs buffer called].
  rewrite (write_healthy JSON_stringify Number_toString) by (split; reflexivity).
  cbn [fst].
  rewrite (close_healthy JSON_stringify Number_toString) by (split; reflexivity).
  cbn [response calls]. now rewrite <- !app_assoc.
Qed.

(** The relay on a writer that is closed collects at most one chunk. *)
Lemma forLines_closed_chunks (lines : list string) :
  forall st,
    closed (writer st) = true ->
    match forLines lines st with
    | RanThrough st' => chunks st' = chunks st /\ writer st' = writer st
    | ClientDisconnected st' => exists c, chunks st' = chunks st ++ [c]
    end.
Proof.
  induction lines as [|line lines IH]; intros st C; [now split|].
  cbn [Streaming.forLines].
  destruct (startsWith "data: " line); [|now apply IH].
  destruct (String.eqb (slice 6 line) "[DONE]"); [now apply IH|].
  destruct (JSON_parse (slice 6 line)) as [parsed|]; [|now apply IH].
  change (writer (pushChunk st parsed)) with (writer st).
  rewrite (write_closed JSON_stringify Number_toString _ _ C).
  now exists parsed.
Qed.

Lemma readLoop_closed_chunks (startTime : Z) (upstream : list UpstreamEvent) :
  forall st,
    closed (writer st) = true ->
    exists extra,
      outChunks (outcome (readLoop startTime upstream st)) = chunks st ++ extra
      /\ List.length extra <= 1.
Proof.
  induction upstream as [|[now text|e|] later IH]; intros st C;
    cbn [Streaming.readLoop].
  - destruct (afterLoop_keeps st) as [_ [_ [new [E [L _]]]]]. now exists new.
  - match goal with
    | |- context [forLines ?l ?x] =>
        pose proof (forLines_closed_chunks l x C) as K;
        destruct (forLines l x) as [s2|s2]
    end; cbn [chunks writer] in K.
    + destruct K as [K1 K2].
      destruct (IH s2) as [extra [E L]]; [now rewrite K2|].
      exists extra. now rewrite E, K1.
    + destruct K as [c K]. exists [c]. cbn. split; [exact K | lia].
  - exists []. cbn. rewrite app_nil_r. split; [reflexivity | lia].
  - apply (IH (withWriter st (onResponseClose (writer st)))). reflexivity.
Qed.

(** X14. Once the client has closed the connection the relay stops
    promptly: after the chunks forwarded until then it collects at most one
    more chunk, whatever the upstream still sends, and writes nothing more
    to the response. *)
Theorem relay_stops_when_the_client_leaves (startTime : Z) (st : float)
    (pieces : list (Z * string)) (lines : list string) (rest : string)
    (later : list UpstreamEvent) (w : SSEWriter) :
  healthy w ->
  String.concat "" (map snd pieces) = bodyText lines rest ->
  Forall isLine lines -> isLine rest ->
  (exists extra,
     outChunks (outcome (relay startTime
        (FetchReturns {| ok := true; status := st;
                         body := Some (reads pieces ++ ClientClosed :: later) |}) w))
     = validChunks lines ++ extra
     /\ List.length extra <= 1)
  /\ calls (response (finalWriter (relay startTime
        (FetchReturns {| ok := true; status := st;
                         body := Some (reads pieces ++ ClientClosed :: later) |}) w)))
     = calls (response w) ++ map forwarded (validChunks lines).
Proof.
  intros H E L R.
  unfold Streaming.streamProviderResponse, initialState. cbn [ok body negb].
  rewrite (readLoop_reads_then startTime pieces (ClientClosed :: later)
             [] None "" w [] H eq_refl).
  cbn [append app Streaming.readLoop].
  rewrite E, (split_bodyText lines rest L R), removelast_last, last_last.
  unfold withWriter, onResponseClose. cbn [writer chunks ttftMs buffer called response closed].
  split.
  - match goal with
    | |- context [readLoop startTime later ?s] =>
        destruct (readLoop_closed_chunks startTime later s eq_refl) as [extra [X Y]]
    end.
    exists extra. split; [exact X | exact Y].
  - match goal with
    | |- context [readLoop startTime later ?s] =>
        rewrite (readLoop_closed_writer JSON_parse JSON_stringify Number_toString
                   startTime later s eq_refl)
    end.
    reflexivity.
Qed.

End Relay.

(** Two deliveries of one body. *)
Lemma reads_may_be_cut_anywhere_witness :
  demoRelay (reads [(105%Z, ("data: 1" ++ nl ++ "da")%string);
                    (110%Z, ("ta: 2" ++ nl)%string)]) openWriter
  = demoRelay (reads [(105%Z, ("data: 1" ++ nl ++ "data: 2" ++ nl)%string)])
      openWriter.
Proof.
  apply (reads_may_be_cut_anywhere demoParse demoStringify demoNumber 100 200
           [(105%Z, ("data: 1" ++ nl ++ "da")%string); (110%Z, ("ta: 2" ++ nl)%string)]
           [(105%Z, ("data: 1" ++ nl ++ "data: 2" ++ nl)%string)]
           openWriter (conj eq_refl eq_refl) eq_refl eq_refl).
Defined.

(** A connection reset after one complete line and half of the next. *)
Lemma failure_in_the_middle_witness :
  outcome
    (demoRelay (reads [(105%Z, ("data: 1" ++ nl ++ "data: 2")%string)]
                ++ Throws (ThrownError "reset") :: [Value 120 nl])
       openWriter)
  = {| success := false; outChunks := [JNum 1]; outTtftMs := Some 5%Z |}.
Proof.
  exact (f_equal outcome
    (failure_in_the_middle demoParse demoStringify demoNumber 100 200
       [(105%Z, ("data: 1" ++ nl ++ "data: 2")%string)]
       ["data: 1"] "data: 2" (ThrownError "reset") [Value 120 nl] openWriter
       (conj eq_refl eq_refl) eq_refl ltac:(repeat constructor) eq_refl)).
Defined.

(** The client leaves after the first line; two more lines arrive. *)
Lemma relay_stops_when_the_client_leaves_witness :
  calls (response (finalWriter
    (demoRelay (reads [(105%Z, ("data: 1" ++ nl)%string)]
                ++ ClientClosed :: [Value 120 ("data: 2" ++ nl ++ "data: 3" ++ nl)])
       openWriter)))
  = [CallWriteHead 200; CallWrite ("data: 1" ++ nl ++ nl) false].
Proof.
  exact (proj2
    (relay_stops_when_the_client_leaves demoParse demoStringify demoNumber 100 200
       [(105%Z, ("data: 1" ++ nl)%string)]
       ["data: 1"] "" [Value 120 ("data: 2" ++ nl ++ "data: 3" ++ nl)] openWriter
       (conj eq_refl eq_refl) eq_refl ltac:(repeat constructor) eq_refl)).
Defined.

(** *** From the upstream to the aggregate, and from a writer to a relay *)

Lemma isLine_cons (c : ascii) (s : string) :
  Ascii.eqb c LF = false -> isLine s -> isLine (String c s).
Proof. unfold isLine. intros C H. cbn [split]. now rewrite C, H. Qed.

Lemma isLine_dataLine (p : string) : isLine p -> isLine (dataLine p).
Proof.
  intros H. unfold dataLine. cbn [append].
  repeat (apply isLine_cons; [reflexivity|]). exact H.
Qed.

Section Pipeline.

Variable JSON_parse : string -> option json.
Variable JSON_stringify : json -> string.
Variable Number_toString : float -> string.

Local Abbreviation wireText := (wireText JSON_stringify Number_toString).
Local Abbreviation relay :=
  (streamProviderResponse JSON_parse JSON_stringify Number_toString).
Local Abbreviation forwarded := (forwarded JSON_stringify Number_toString).
Local Abbreviation validChunks := (validChunks JSON_parse).
Local Abbreviation performAll := (performAll JSON_stringify Number_toString).

Lemma validChunk_dataLine (p : string) :
  p <> "[DONE]" -> validChunk JSON_parse (dataLine p) = JSON_parse p.
Proof.
  intros N. unfold validChunk, dataLine. cbn.
  apply String.eqb_neq in N. now rewrite N.
Qed.

Lemma validChunks_dataLines (payloads : list string) (cs : list json) :
  Forall2 (fun p c => JSON_parse p = Some c) payloads cs ->
  ~ In "[DONE]" payloads ->
  validChunks (map dataLine payloads) = cs.
Proof.
  induction 1 as [|p c payloads cs P _ IH]; intros N; [reflexivity|].
  cbn [map]. unfold Streaming.validChunks. cbn [flat_map].
  rewrite validChunk_dataLine by (intros X; apply N; now left).
  rewrite P. cbn [app]. f_equal. apply IH. intros X. apply N. now right.
Qed.

(** X15. From the upstream to the aggregate: when the body carries, line
    by line, chunks whose deltas hold the fragments of a text, closed by the
    [DONE] line, and the client stays, the chunks the relay returns
    aggregate to that text, however the body is cut into reads. *)
Theorem relayed_fragments_aggregate (startTime : Z) (st : float)
    (pieces : list (Z * string)) (payloads fragments : list string)
    (w : SSEWriter) :
  healthy w ->
  Forall2 (fun p f => JSON_parse p = Some (deltaChunk f)) payloads fragments ->
  Forall isLine payloads ->
  ~ In "[DONE]" payloads ->
  String.concat "" (map snd pieces)
  = bodyText (map dataLine payloads ++ [dataLine "[DONE]"]) "" ->
  aggregateStreamingResponse
    (outChunks (outcome (relay startTime
       (FetchReturns {| ok := true; status := st; body := Some (reads pieces) |}) w)))
  = Some {| content := String.concat "" fragments; usage := None;
            model := None; finish_reason := None |}.
Proof.
  intros H P L N E.
  assert (L' : Forall isLine (map dataLine payloads ++ [dataLine "[DONE]"])).
  { apply Forall_app. split.
    - apply Forall_map. eapply Forall_impl; [|exact L].
      intros p. apply isLine_dataLine.
    - repeat constructor. }
  rewrite (undisturbed_run JSON_parse JSON_stringify Number_toString
             startTime st pieces _ "" w H E L' eq_refl).
  cbn [outcome outChunks].
  rewrite (validChunks_append JSON_parse).
  assert (V : validChunks (map dataLine payloads) = map deltaChunk fragments).
  { apply validChunks_dataLines; [|exact N].
    clear - P. induction P; constructor; assumption. }
  rewrite V. cbn [app]. rewrite !app_nil_r.
  unfold aggregateStreamingResponse. now rewrite aggregateFrom_deltas.
Qed.

Lemma wireText_data (c : json) :
  (forall s, c <> JStr s) -> isLine (JSON_stringify c) ->
  wireText (dataMessage c) = (dataLine (JSON_stringify c) ++ nl ++ nl)%string.
Proof.
  intros N L. unfold isLine in L.
  destruct c; try (now elim (N s));
    unfold Streaming.wireText, dataMessage, dataLine;
    cbn [data event id retry optionalLine app];
    rewrite L; cbn [map join String.concat app]; now rewrite !append_assoc.
Qed.

Lemma performAll_writeData (cs : list json) :
  forall w,
    healthy w ->
    performAll (map DoWriteData cs) w
    = {| response := {| calls := calls (response w) ++ map forwarded cs;
                        faults := [] |};
         closed := false |}.
Proof.
  unfold Streaming.performAll.
  induction cs as [|c cs IH]; intros w H.
  - destruct H as [C F]. destruct w as [[k f] x]. cbn in *. subst.
    now rewrite app_nil_r.
  - cbn [map fold_left Streaming.perform]. unfold writeData.
    rewrite (write_healthy JSON_stringify Number_toString w _ H). cbn [fst].
    rewrite IH by (split; reflexivity).
    cbn [response calls]. now rewrite <- app_assoc.
Qed.

Lemma received_forwarded (before : list TransportCall) (cs : list json)
    (after : list TransportCall) :
  String.concat ""
    (flat_map (fun c => match c with
                        | CallWrite payload false => [payload]
                        | _ => []
                        end) (before ++ map forwarded cs ++ after))
  = (String.concat ""
       (flat_map (fun c => match c with
                           | CallWrite payload false => [payload]
                           | _ => []
                           end) before)
     ++ String.concat "" (map (fun c => wireText (dataMessage c)) cs)
     ++ String.concat ""
          (flat_map (fun c => match c with
                              | CallWrite payload false => [payload]
                              | _ => []
                              end) after))%string.
Proof.
  rewrite !flat_map_app, !concat_append. do 2 f_equal.
  induction cs as [|c cs IH]; [reflexivity|].
  cbn [map flat_map forwarded app]. now rewrite !concat_cons, IH.
Qed.

Lemma written_text (cs : list json) :
  Forall (readsBack JSON_parse JSON_stringify) cs ->
  (String.concat "" (map (fun c => wireText (dataMessage c)) cs) ++ doneText)%string
  = bodyText
      (flat_map (fun c => [dataLine (JSON_stringify c); ""]) cs
       ++ [dataLine "[DONE]"; ""]) "".
Proof.
  induction 1 as [|c cs [N [L _]] _ IH]; [reflexivity|].
  cbn [map flat_map app]. rewrite concat_cons, !bodyText_cons, <- IH.
  rewrite (wireText_data c N L). cbn [append]. now rewrite !append_assoc.
Qed.

Lemma written_lines (cs : list json) :
  Forall (readsBack JSON_parse JSON_stringify) cs ->
  Forall isLine
    (flat_map (fun c => [dataLine (JSON_stringify c); ""]) cs
     ++ [dataLine "[DONE]"; ""])
  /\ validChunks
       (flat_map (fun c => [dataLine (JSON_stringify c); ""]) cs
        ++ [dataLine "[DONE]"; ""])
     = cs.
Proof.
  induction 1 as [|c cs [N [L [D P]]] _ [IH1 IH2]].
  - split; [repeat constructor | reflexivity].
  - cbn [flat_map app]. split.
    + constructor; [now apply isLine_dataLine|].
      constructor; [reflexivity | exact IH1].
    + unfold Streaming.validChunks in *. cbn [flat_map].
      rewrite (validChunk_dataLine _ D), P.
      change (validChunk JSON_parse "") with (@None json).
      cbn [app]. now rewrite IH2.
Qed.

(** X16. What a writer sends, a relay reads back: when the chunks [cs] are
    written with [writeData] to a fresh writer which is then closed, and the
    text its client received is the body of an upstream, the relay returns
    exactly [cs], however that text is cut into reads.  This holds for
    chunks that the host functions write and read back; a chunk that is a
    string is excluded, for [write] sends it without quotes. *)
Theorem written_chunks_are_read_back (startTime : Z) (st : float)
    (cs : list json) (pieces : list (Z * string)) (w : SSEWriter) :
  Forall (readsBack JSON_parse JSON_stringify) cs ->
  healthy w ->
  String.concat "" (map snd pieces)
  = received (performAll (map DoWriteData cs ++ [DoClose]) openWriter) ->
  outChunks (outcome (relay startTime
     (FetchReturns {| ok := true; status := st; body := Some (reads pieces) |}) w))
  = cs.
Proof.
  intros R H E.
  assert (T : received (performAll (map DoWriteData cs ++ [DoClose]) openWriter)
              = bodyText
                  (flat_map (fun c => [dataLine (JSON_stringify c); ""]) cs
                   ++ [dataLine "[DONE]"; ""]) "").
  { unfold Streaming.performAll. rewrite fold_left_app.
    fold (performAll (map DoWriteData cs) openWriter).
    rewrite (performAll_writeData cs openWriter) by (split; reflexivity).
    cbn [fold_left Streaming.perform fst].
    rewrite (close_healthy JSON_stringify Number_toString) by (split; reflexivity).
    unfold received. cbn [response calls].
    rewrite <- app_assoc.
    change (calls (response openWriter)) with [CallWriteHead 200].
    rewrite (received_forwarded [CallWriteHead 200] cs
               [CallWrite doneText false; CallEnd]).
    cbn [flat_map app String.concat append].
    now apply written_text. }
  rewrite T in E. destruct (written_lines cs R) as [L V].
  rewrite (undisturbed_run JSON_parse JSON_stringify Number_toString
             startTime st pieces _ "" w H E L eq_refl).
  cbn [outcome outChunks]. rewrite V. apply app_nil_r.
Qed.

End Pipeline.

(** Two delta chunks and the [DONE] line, cut inside the first line. *)
Lemma relayed_fragments_aggregate_witness :
  aggregateStreamingResponse
    (outChunks (outcome
       (streamProviderResponse demoDeltaParse demoStringify demoNumber 100
          (FetchReturns
             {| ok := true; status := 200;
                body := Some (reads
                  [(105%Z, "data: ");
                   (110%Z, (demoStringify (deltaChunk "Hel") ++ nl
                            ++ dataLine (demoStringify (deltaChunk "lo")) ++ nl
                            ++ "data: [DONE]" ++ nl)%string)]) |})
          openWriter)))
  = Some {| content := "Hello"; usage := None; model := None;
            finish_reason := None |}.
Proof.
  apply (relayed_fragments_aggregate demoDeltaParse demoStringify demoNumber 100 200
           [(105%Z, "data: ");
            (110%Z, (demoStringify (deltaChunk "Hel") ++ nl
                     ++ dataLine (demoStringify (deltaChunk "lo")) ++ nl
                     ++ "data: [DONE]" ++ nl)%string)]
           [demoStringify (deltaChunk "Hel"); demoStringify (deltaChunk "lo")]
           ["Hel"; "lo"] openWriter (conj eq_refl eq_refl)).
  - repeat constructor.
  - repeat constructor.
  - intros [X|[X|[]]]; discriminate.
  - reflexivity.
Defined.

(** Three chunks written, closed, and read back in two reads. *)
Lemma written_chunks_are_read_back_witness :
  outChunks (outcome
    (demoRelay
       (reads [(105%Z, ("data: 1" ++ nl ++ nl ++ "data: tr")%string);
               (110%Z, ("ue" ++ nl ++ nl ++ "data: null" ++ nl ++ nl
                        ++ "data: [DONE]" ++ nl ++ nl)%string)])
       openWriter))
  = [JNum 1; JBool true; JNull].
Proof.
  apply (written_chunks_are_read_back demoParse demoStringify demoNumber 100 200
           [JNum 1; JBool true; JNull]
           [(105%Z, ("data: 1" ++ nl ++ nl ++ "data: tr")%string);
            (110%Z, ("ue" ++ nl ++ nl ++ "data: null" ++ nl ++ nl
                     ++ "data: [DONE]" ++ nl ++ nl)%string)]
           openWriter).
  - repeat constructor; try discriminate.
  - split; reflexivity.
  - reflexivity.
Defined.

(** *** The lines of a message on the wire *)

Lemma split_parts_are_lines (s : string) : Forall isLine (split LF s).
Proof.
  induction s as [|c s IH]; [repeat constructor|].
  cbn [split]. destruct (Ascii.eqb c LF) eqn:C.
  - constructor; [reflexivity | exact IH].
  - pose proof (split_not_nil LF s) as N.
    destruct (split LF s) as [|h t]; [congruence|].
    inversion IH; subst. constructor; [now apply isLine_cons | assumption].
Qed.

Lemma join_cons_more (x y : string) (l : list string) :
  join nl (x :: y :: l) = (x ++ nl ++ join nl (y :: l))%string.
Proof. reflexivity. Qed.

Lemma split_join (lines : list string) :
  lines <> [] -> Forall isLine lines -> split LF (join nl lines) = lines.
Proof.
  intros N L. induction L as [|l lines H _ IH]; [congruence|].
  destruct lines as [|y lines]; [exact H|].
  rewrite join_cons_more, (split_line_then l _ H), IH by discriminate.
  reflexivity.
Qed.

Lemma join_split (s : string) : join nl (split LF s) = s.
Proof.
  induction s as [|c s IH]; [reflexivity|].
  cbn [split]. destruct (Ascii.eqb c LF) eqn:C.
  - apply Ascii.eqb_eq in C. subst c.
    pose proof (split_not_nil LF s) as N.
    destruct (split LF s) as [|h t]; [congruence|].
    rewrite join_cons_more, IH. reflexivity.
  - pose proof (split_not_nil LF s) as N.
    destruct (split LF s) as [|h t]; [congruence|].
    destruct t as [|y t].
    + cbn in *. now rewrite IH.
    + rewrite join_cons_more in *. cbn [append]. now rewrite <- IH.
Qed.

(** X19. A payload with line feeds is sent as one [data: ] line per line
    of the payload, followed by the blank line that ends the message: read
    line by line, the text [write] sends for a data-only message with a
    string payload is the lines of the payload, each behind the prefix, then
    two empty strings; taking the prefix off and joining the lines gives the
    payload back. *)
Theorem one_data_line_per_payload_line (stringify : json -> string)
    (num : float -> string) (payload : string) :
  split LF (wireText stringify num (dataMessage (JStr payload)))
  = map dataLine (split LF payload) ++ [""; ""]
  /\ join nl (map (slice 6) (map dataLine (split LF payload))) = payload.
Proof.
  split.
  - unfold wireText, dataMessage. cbn [data event id retry optionalLine app].
    apply split_join.
    + destruct (split LF payload); discriminate.
    + apply Forall_app. split; [|repeat constructor].
      apply Forall_map. eapply Forall_impl; [|apply split_parts_are_lines].
      intros l. apply isLine_dataLine.
  - rewrite map_map. rewrite (map_ext _ (fun l => l)) by reflexivity.
    rewrite map_id. apply join_split.
Qed.

(** *** More on aggregateStreamingResponse *)

Lemma combine_empty_r (a : Aggregate) : combine a emptyAggregate = a.
Proof. destruct a. unfold combine. cbn. now rewrite append_nil_r. Qed.

Lemma combine_empty_l (a : Aggregate) : combine emptyAggregate a = a.
Proof. destruct a as [c [u|] [m|] [f|]]; reflexivity. Qed.

Lemma later_of_assoc (A : Type) (x y z : option A) :
  later_of (later_of x y) z = later_of x (later_of y z).
Proof. destruct z, y; reflexivity. Qed.

Lemma combine_assoc (a b c : Aggregate) :
  combine (combine a b) c = combine a (combine b c).
Proof.
  unfold combine. cbn. now rewrite append_assoc, !later_of_assoc.
Qed.

Lemma readUsage_combine (acc : Aggregate) (c : json) :
  readUsage acc c = combine acc (readUsage emptyAggregate c).
Proof.
  unfold readUsage.
  destruct (truthyObject (prop c "usage")) as [u|];
    [|now rewrite combine_empty_r].
  destruct (prop u "prompt_tokens") as [[]|];
    destruct (prop u "completion_tokens") as [[]|];
    try (now rewrite combine_empty_r).
  unfold combine. cbn. now rewrite append_nil_r.
Qed.

Lemma readChoice_combine (acc : Aggregate) (choice : json) :
  readChoice acc choice
  = option_map (combine acc) (readChoice emptyAggregate choice).
Proof.
  destruct choice; [reflexivity| | | | |];
    unfold readChoice;
    (destruct (truthyObject (prop _ "delta")) as [delta|];
     [destruct (prop delta "content") as [[]|]|]);
    (destruct (nonEmptyString (prop _ "finish_reason")) as [f|]);
    cbn; unfold combine; cbn; rewrite ?append_nil_r; reflexivity.
Qed.

Lemma aggregateChunk_combine (acc : Aggregate) (chunk : json) :
  aggregateChunk acc chunk
  = option_map (combine acc) (aggregateChunk emptyAggregate chunk).
Proof.
  unfold aggregateChunk.
  destruct (isObject chunk); cbn [negb];
    [|cbn; now rewrite combine_empty_r].
  set (m := nonEmptyString (prop chunk "model")).
  assert (M : match m with
              | Some x => {| content := content acc; usage := usage acc;
                             model := Some x; finish_reason := finish_reason acc |}
              | None => acc
              end
              = combine acc
                  match m with
                  | Some x => {| content := content emptyAggregate;
                                 usage := usage emptyAggregate; model := Some x;
                                 finish_reason := finish_reason emptyAggregate |}
                  | None => emptyAggregate
                  end).
  { destruct m; [|now rewrite combine_empty_r].
    unfold combine. cbn. now rewrite append_nil_r. }
  rewrite M.
  set (a1 := match m with
             | Some x => {| content := content emptyAggregate;
                            usage := usage emptyAggregate; model := Some x;
                            finish_reason := finish_reason emptyAggregate |}
             | None => emptyAggregate
             end).
  assert (C : match prop chunk "choices" with
              | Some (JArr (choice :: _)) => readChoice (combine acc a1) choice
              | _ => Some (combine acc a1)
              end
              = option_map (combine acc)
                  match prop chunk "choices" with
                  | Some (JArr (choice :: _)) => readChoice a1 choice
                  | _ => Some a1
                  end).
  { destruct (prop chunk "choices") as [[| | | |[|choice rest]|]|]; try reflexivity.
    rewrite (readChoice_combine (combine acc a1)), (readChoice_combine a1).
    destruct (readChoice emptyAggregate choice) as [x|]; [|reflexivity].
    cbn. now rewrite combine_assoc. }
  rewrite C.
  destruct (match prop chunk "choices" with
            | Some (JArr (choice :: _)) => readChoice a1 choice
            | _ => Some a1
            end) as [x|]; [|reflexivity].
  cbn. f_equal.
  rewrite (readUsage_combine (combine acc x)), (readUsage_combine x).
  now rewrite combine_assoc.
Qed.

Lemma aggregateFrom_combine (chunks : list json) :
  forall acc,
    aggregateFrom acc chunks
    = option_map (combine acc) (aggregateFrom emptyAggregate chunks).
Proof.
  induction chunks as [|c chunks IH]; intros acc.
  - cbn. now rewrite combine_empty_r.
  - cbn [aggregateFrom]. rewrite (aggregateChunk_combine acc c).
    destruct (aggregateChunk emptyAggregate c) as [x|]; [|reflexivity].
    cbn [option_map]. rewrite (IH (combine acc x)), (IH x).
    destruct (aggregateFrom emptyAggregate chunks) as [y|]; [|reflexivity].
    cbn. now rewrite combine_assoc.
Qed.

Lemma aggregateFrom_append (a b : list json) (acc : Aggregate) :
  aggregateFrom acc (a ++ b)
  = match aggregateFrom acc a with
    | Some x => aggregateFrom x b
    | None => None
    end.
Proof.
  revert acc. induction a as [|c a IH]; intros acc; [reflexivity|].
  cbn [app aggregateFrom].
  destruct (aggregateChunk acc c); [apply IH | reflexivity].
Qed.

(** X17. Aggregating two sequences of chunks one after the other is
    aggregating each and joining the results: the contents are
    concatenated, and for the model, the finish reason and the usage the
    value of the later sequence wins when it has one.  If either sequence
    makes the function throw, so does the whole. *)
Theorem aggregate_of_append (a b : list json) :
  aggregateStreamingResponse (a ++ b)
  = match aggregateStreamingResponse a, aggregateStreamingResponse b with
    | Some x, Some y => Some (combine x y)
    | _, _ => None
    end.
Proof.
  unfold aggregateStreamingResponse.
  fold emptyAggregate. rewrite aggregateFrom_append.
  destruct (aggregateFrom emptyAggregate a) as [x|].
  - rewrite (aggregateFrom_combine b x).
    now destruct (aggregateFrom emptyAggregate b).
  - now destruct (aggregateFrom emptyAggregate b).
Qed.

Lemma aggregateChunk_throws (acc : Aggregate) (chunk : json) :
  aggregateChunk acc chunk = None <-> firstChoiceIsNull chunk = true.
Proof.
  unfold aggregateChunk, firstChoiceIsNull.
  destruct (isObject chunk); cbn [negb andb]; [|split; discriminate].
  destruct (prop chunk "choices") as [[| | | |[|choice rest]|]|];
    try (split; discriminate).
  destruct choice; cbn; split; try discriminate; reflexivity.
Qed.

(** X18. [aggregateStreamingResponse] throws exactly when some chunk is an
    object whose [choices] array starts with [null]; chunks that are not
    objects, or that lack the fields it reads, never make it throw. *)
Theorem aggregate_throws_on_null_choice (chunks : list json) :
  aggregateStreamingResponse chunks = None
  <-> existsb firstChoiceIsNull chunks = true.
Proof.
  unfold aggregateStreamingResponse.
  generalize {| content := ""; usage := None; model := None; finish_reason := None |}.
  induction chunks as [|c chunks IH]; intros acc.
  - cbn. split; discriminate.
  - cbn [aggregateFrom existsb].
    pose proof (aggregateChunk_throws acc c) as T.
    destruct (aggregateChunk acc c) as [x|].
    + destruct (firstChoiceIsNull c).
      * destruct T as [_ T]. now specialize (T eq_refl).
      * cbn [orb]. apply IH.
    + rewrite (proj1 T eq_refl). cbn. now split.
Qed.

End StreamingFacts.
